(** * The frame-streaming loop of [VideoAnalyzer.tsx]

    A shallow embedding of the camera part of the [VideoAnalyzer] React
    component (src/components/VideoAnalyzer.tsx): the handlers
    [startCamera], [stopCamera], [speakPrediction], [startFrameStreaming]
    (with the asynchronous interval callback it installs), [startRecording]
    and [stopRecording].

    The component runs on the browser's single-threaded event loop.  Each
    handler, and each stretch of the asynchronous callback between two
    [await]s, runs to completion; the model makes every such stretch one
    event of a transition system over an explicit component state.  The
    handlers are written in a small state-and-exception monad so that
    [try]/[catch]/[finally] read as they do in the source. *)

From Stdlib Require Import ZArith String DecimalString DecimalN.
From stdpp Require Import base option list gmap strings.
From coqutil Require Import Datatypes.RecordSetters.
Import TriangleBracketNotations.

Open Scope string_scope.
Open Scope Z_scope.

Module VideoAnalyzer.

(** ** JavaScript values *)

(** The values that [response.json()] can put in a property of the parsed
    body, as far as the callback observes them: it tests them for
    truthiness, compares them with [===] against string literals and stores
    them.  Numbers are kept as integers; arrays and objects are only ever
    tested for truthiness, so they are one constructor. *)
Inductive jsval : Type :=
| JUndefined
| JNull
| JBool (b : bool)
| JNum (n : Z)
| JStr (s : string)
| JObject.

#[global] Instance jsval_eq_dec : EqDecision jsval.
Proof. solve_decision. Defined.

(** JavaScript's ToBoolean. *)
Definition truthy (v : jsval) : bool :=
  match v with
  | JUndefined | JNull => false
  | JBool b => b
  | JNum n => negb (n =? 0)
  | JStr s => negb (bool_decide (s = ""))
  | JObject => true
  end.

(** [a || b] on values. *)
Definition js_or (a b : jsval) : jsval := if truthy a then a else b.

(** A thrown error object, seen through the two properties the callback's
    [catch] clause reads. *)
Record js_error : Type := { err_name : string; err_message : string }.

#[global] Instance js_error_eq_dec : EqDecision js_error.
Proof. solve_decision. Defined.

(** The body of a response as [await response.json()] returns it.  Reading a
    property of [null] throws; every other JSON value answers a property
    read, with [undefined] where it has no such property. *)
Inductive json_body : Type :=
| BodyNull
| BodyFields (success answer question error : jsval).

(** ** Strings *)

(** One [ascii] stands for one UTF-16 code unit of the JavaScript string. *)

(** [text.slice(0, n)] *)
Definition slice_prefix (n : nat) (text : string) : string := substring 0 n text.

(** [`${status}`] for a non-negative integer. *)
Definition decimal (n : N) : string := NilEmpty.string_of_uint (N.to_uint n).

(** [arr.slice(-n)]: the last [n] elements, all of them when there are fewer. *)
Definition slice_last {A} (n : nat) (arr : list A) : list A :=
  drop (length arr - n) arr.

(** ** Component state *)

(** [interface RealTimeResult], with the values the callback stores. *)
Record RealTimeResult : Type :=
  { timestamp : Z; answer : jsval; question : jsval }.

(** The properties of the camera [<video>] element the handlers read. *)
Record video_element : Type :=
  { readyState : N; videoWidth : N; videoHeight : N }.

Record canvas : Type := { canvas_width : N; canvas_height : N }.

(** Where the asynchronous interval callback is suspended. *)
Inductive await_point : Type :=
| AwaitFetch                 (* line 272: await fetch(...) *)
| AwaitText (status : N)     (* line 288: await response.text() *)
| AwaitJson.                 (* line 292: await response.json() *)

(** One [POST {apiUrl}/analyze/frame] that has been issued and whose
    callback has not run to its end.  [req_abort] is the due time of the
    [setTimeout(() => controller.abort(), 15000)] timer while it is armed. *)
Record frame_request : Type :=
  { req_url : string;
    req_data : string;
    req_timestamp : Z;
    req_question : string;
    req_abort : option Z;
    req_await : await_point }.

(** The repeating timer of [window.setInterval(callback, 2500)].  The
    callback is a closure over the [apiUrl] of the render that created it. *)
Record interval : Type := { iv_due : Z; iv_apiUrl : string }.

Inductive alert : Type :=
| AlertCameraError (message : string)
| AlertStartCameraFirst
| AlertCameraStillStarting
| AlertRecordingError (message : string).

Record state : Type :=
  { (* the browser *)
    now : Z;
    hasSpeechSynthesis : bool;
    speechQueue : list jsval;
    utterances : list jsval;
    alerts : list alert;
    pending : gmap nat frame_request;
    nextRequest : nat;
    (* useState *)
    apiUrl : string;
    isRecording : bool;
    isCameraActive : bool;
    recordingTime : Z;
    mediaStream : bool;
    realTimeResults : list RealTimeResult;
    isStreaming : bool;
    streamError : jsval;
    (* useRef *)
    captureCanvasRef : option canvas;
    mediaRecorderRef : bool;
    recordingIntervalRef : option Z;
    streamingIntervalRef : option interval;
    frameInFlightRef : bool }.

(** The component as first mounted; [url] is what the mount effect puts in
    [apiUrl] ([localStorage.getItem('apiUrl') || 'http://localhost:5000']). *)
Definition mounted (url : string) (speech : bool) : state :=
  {| now := 0;
     hasSpeechSynthesis := speech;
     speechQueue := [];
     utterances := [];
     alerts := [];
     pending := ∅;
     nextRequest := 0;
     apiUrl := url;
     isRecording := false;
     isCameraActive := false;
     recordingTime := 0;
     mediaStream := false;
     realTimeResults := [];
     isStreaming := false;
     streamError := JStr "";
     captureCanvasRef := None;
     mediaRecorderRef := false;
     recordingIntervalRef := None;
     streamingIntervalRef := None;
     frameInFlightRef := false |}.

(** ** The handler monad: state and exceptions *)

Definition js (A : Type) : Type := state -> (js_error + A) * state.

#[global] Instance js_ret : MRet js := fun A x s => (inr x, s).

#[global] Instance js_bind : MBind js := fun A B k m s =>
  match m s with
  | (inr x, s') => k x s'
  | (inl e, s') => (inl e, s')
  end.

Definition throw {A} (e : js_error) : js A := fun s => (inl e, s).

Definition get : js state := fun s => (inr s, s).

Definition modify (f : state -> state) : js unit := fun s => (inr tt, f s).

(** [try { m } catch (err) { h err }] *)
Definition try_catch {A} (m : js A) (h : js_error -> js A) : js A := fun s =>
  match m s with
  | (inr x, s') => (inr x, s')
  | (inl e, s') => h e s'
  end.

(** [try { m } finally { f }]: [f] always runs; an exception of [f] replaces
    the outcome of [m]. *)
Definition try_finally {A} (m : js A) (f : js unit) : js A := fun s =>
  match m s with
  | (r, s') =>
      match f s' with
      | (inr _, s'') => (r, s'')
      | (inl e, s'') => (inl e, s'')
      end
  end.

(** The state a handler leaves behind, whether it returns or throws. *)
Definition exec {A} (m : js A) (s : state) : state := snd (m s).

(** ** Handlers *)

Definition setStreamError (v : jsval) : js unit :=
  modify (fun s => s <| streamError := v |>).

(** [if (ref.current) { clearInterval(ref.current); ref.current = null; }] *)
Definition clearStreamingInterval : js unit :=
  modify (fun s =>
    match streamingIntervalRef s with
    | Some _ => s <| streamingIntervalRef := None |>
    | None => s
    end).

Definition clearRecordingInterval : js unit :=
  modify (fun s =>
    match recordingIntervalRef s with
    | Some _ => s <| recordingIntervalRef := None |>
    | None => s
    end).

(** lines 183-202.  [granted] is the outcome of [getUserMedia]: [inl] the
    error it rejects with. *)
Definition startCamera (granted : js_error + unit) : js unit :=
  match granted with
  | inr _ =>
      modify (fun s => s <| mediaStream := true |>
                         <| isCameraActive := true |>
                         <| realTimeResults := [] |>
                         <| streamError := JStr "" |>)
  | inl err =>
      modify (fun s => s <| alerts ::= cons (AlertCameraError
        (if decide (err_message err = "") then "Camera access denied"
         else err_message err)) |>)
  end.

(** lines 204-223 *)
Definition stopCamera : js unit :=
  s ← get;
  (if mediaStream s
   then modify (fun s => s <| mediaStream := false |> <| isCameraActive := false |>)
   else mret tt);;
  clearStreamingInterval;;
  modify (fun s => s <| frameInFlightRef := false |>);;
  modify (fun s => s <| isRecording := false |>
                     <| isStreaming := false |>
                     <| recordingTime := 0 |>);;
  clearRecordingInterval.

(** lines 225-234.  [speechSynthesis.cancel()] empties the utterance queue,
    [speechSynthesis.speak(u)] appends to it; the utterance text is
    [`There is a ${answer} ahead. Watch out.`], kept here as its [answer].
    [utterances] is the history of everything handed to [speak]. *)
Definition speakPrediction (answer : jsval) : js unit :=
  s ← get;
  if negb (hasSpeechSynthesis s) then mret tt else
  modify (fun s => s <| speechQueue := [] |>);;
  modify (fun s => s <| speechQueue ::= (fun q => (q ++ [answer])%list) |>
                     <| utterances ::= (fun h => (h ++ [answer])%list) |>).

(** *** The interval callback, lines 245-317 *)

Definition FRAME_INTERVAL_MS : Z := 2500.
Definition FRAME_TIMEOUT_MS : Z := 15000.
Definition DEFAULT_QUESTION : string := "what is in the picture".
Definition TIMEOUT_MESSAGE : string := "Request timed out. Backend may be busy.".
Definition NETWORK_MESSAGE : string :=
  "Network error — check your ngrok URL and CORS settings.".

(** What the callback finds when the timer fires: [cameraVideoRef.current],
    whether [canvas.getContext('2d')] yields a context, and the data URL
    that [canvas.toDataURL('image/jpeg', 0.7)] would return. *)
Record tick_env : Type :=
  { tick_video : option video_element;
    tick_context2d : bool;
    tick_jpeg : string }.

(** lines 269-284: the request as issued in state [s], its abort timer armed
    and its callback suspended at [await fetch]. *)
Definition frame_request_of (s : state) (url jpegDataUrl : string) : frame_request :=
  {| req_url := url ++ "/analyze/frame";
     req_data := jpegDataUrl;
     req_timestamp := now s;
     req_question := DEFAULT_QUESTION;
     req_abort := Some (now s + FRAME_TIMEOUT_MS);
     req_await := AwaitFetch |}.

Definition fetchFrame (url jpegDataUrl : string) : js unit :=
  modify (fun s =>
    s <| pending ::= insert (nextRequest s) (frame_request_of s url jpegDataUrl) |>
      <| nextRequest ::= S |>).

(** lines 246-284: the callback from the timer firing to [await fetch]. *)
Definition frameTick (url : string) (env : tick_env) : js unit :=
  s ← get;
  if frameInFlightRef s then mret tt else
  match tick_video env with
  | None => mret tt
  | Some videoEl =>
      if (readyState videoEl <? 2)%N || (videoWidth videoEl =? 0)%N
      then mret tt else
      modify (fun s => s <| captureCanvasRef :=
        Some {| canvas_width := videoWidth videoEl;
                canvas_height := videoHeight videoEl |} |>);;
      if negb (tick_context2d env) then mret tt else
      modify (fun s => s <| frameInFlightRef := true |>);;
      setStreamError (JStr "");;
      fetchFrame url (tick_jpeg env)
  end.

(** [response.ok] *)
Definition response_ok (status : N) : bool :=
  (200 <=? status)%N && (status <=? 299)%N.

(** How far a resumed stretch of the [try] block got. *)
Inductive progress : Type :=
| Suspended (at_ : await_point)
| Completed.

(** lines 285-292, after [await fetch] is fulfilled with a response. *)
Definition afterFetch (id : nat) (status : N) : js progress :=
  (* clearTimeout(timeout) *)
  modify (fun s => s <| pending ::= alter (fun r => r <| req_abort := None |>) id |>);;
  if negb (response_ok status)
  then mret (Suspended (AwaitText status))
  else mret (Suspended AwaitJson).

(** [new Error(`HTTP ${response.status}: ${text.slice(0, 120)}`)] *)
Definition http_error (status : N) (text : string) : js_error :=
  {| err_name := "Error";
     err_message := "HTTP " ++ decimal status ++ ": " ++ slice_prefix 120 text |}.

(** line 289 *)
Definition afterText (status : N) (text : string) : js progress :=
  throw (http_error status text).

(** line 296 *)
Definition normalize (answer : jsval) : jsval :=
  if bool_decide (answer = JStr "unanswerable") || bool_decide (answer = JStr "unsuitable")
  then JStr "object" else answer.

(** line 303: [prev => [...prev.slice(-19), entry]] *)
Definition appendResult (entry : RealTimeResult) (prev : list RealTimeResult) :
    list RealTimeResult :=
  (slice_last 19 prev ++ [entry])%list.

(** The [TypeError] of reading [result.success] when [result] is [null]
    (the wording is the engine's). *)
Definition null_read_error : js_error :=
  {| err_name := "TypeError";
     err_message := "Cannot read properties of null (reading 'success')" |}.

(** lines 298-302: the entry built in state [s] from the normalized
    [answer] and [result.question]. *)
Definition entry_of (s : state) (answer question : jsval) : RealTimeResult :=
  {| timestamp := now s;
     answer := answer;
     question := js_or question (JStr DEFAULT_QUESTION) |}.

(** lines 294-307, after [await response.json()] is fulfilled. *)
Definition afterJson (result : json_body) : js progress :=
  match result with
  | BodyNull => throw null_read_error
  | BodyFields success answer question error =>
      if truthy success && truthy answer then
        let answer := normalize answer in
        s ← get;
        let entry := entry_of s answer question in
        modify (fun s => s <| realTimeResults ::= appendResult entry |>);;
        speakPrediction answer;;
        mret Completed
      else if truthy error then
        setStreamError error;;
        mret Completed
      else mret Completed
  end.

(** lines 308-313 *)
Definition catchClause (err : js_error) : js unit :=
  if decide (err_name err = "AbortError") then
    setStreamError (JStr TIMEOUT_MESSAGE)
  else
    setStreamError (JStr (if decide (err_message err = "") then NETWORK_MESSAGE
                          else err_message err)).

(** The message [catchClause] displays for [err]. *)
Definition surfaced (err : js_error) : string :=
  if decide (err_name err = "AbortError") then TIMEOUT_MESSAGE
  else if decide (err_message err = "") then NETWORK_MESSAGE
  else err_message err.

(** lines 314-316 *)
Definition finallyClause : js unit :=
  modify (fun s => s <| frameInFlightRef := false |>).

(** One resumption of the suspended callback of request [id].  [stretch] is
    the code of the [try] block from the await point on.  It either reaches
    the next [await], where the callback is parked again, or leaves the
    [try] block, normally or by an exception; then the request is over and
    [catch] and [finally] run. *)
Definition resume (id : nat) (stretch : js progress) : js unit := fun s =>
  match stretch s with
  | (inr (Suspended p), s') =>
      (inr tt, s' <| pending ::= alter (fun r => r <| req_await := p |>) id |>)
  | (inr Completed, s') =>
      try_finally (mret tt) finallyClause (s' <| pending ::= delete id |>)
  | (inl err, s') =>
      try_finally (catchClause err) finallyClause (s' <| pending ::= delete id |>)
  end.

(** The rejection of [fetch] after [controller.abort()]. *)
Definition abort_error : js_error :=
  {| err_name := "AbortError"; err_message := "signal is aborted without reason" |}.

(** lines 237-318 *)
Definition startFrameStreaming (video : option video_element) : js unit :=
  s ← get;
  if negb (bool_decide (is_Some video)) || bool_decide (apiUrl s = "") then mret tt else
  clearStreamingInterval;;
  modify (fun s => s <| frameInFlightRef := false |>);;
  modify (fun s => s <| streamingIntervalRef :=
    Some {| iv_due := now s + FRAME_INTERVAL_MS; iv_apiUrl := apiUrl s |} |>).

(** *** Recording, lines 321-384 *)

(** What [startRecording] finds: [cameraVideoRef.current], and the errors
    that [new MediaRecorder(...)] and [mr.start(500)] throw, if any. *)
Record record_env : Type :=
  { rec_video : option video_element;
    rec_construct : option js_error;
    rec_start : option js_error }.

Definition raise_if (e : option js_error) : js unit :=
  match e with
  | Some err => throw err
  | None => mret tt
  end.

Definition video_ready (video : option video_element) : bool :=
  match video with
  | None => false
  | Some videoEl => negb ((readyState videoEl <? 2)%N || (videoWidth videoEl =? 0)%N)
  end.

(** lines 321-371.  The recorder's chunks and its [onstop] handler only feed
    the file upload and are left out. *)
Definition startRecording (env : record_env) : js unit :=
  s ← get;
  if negb (mediaStream s) then
    modify (fun s => s <| alerts ::= cons AlertStartCameraFirst |>)
  else if negb (video_ready (rec_video env)) then
    modify (fun s => s <| alerts ::= cons AlertCameraStillStarting |>)
  else
    try_catch
      (raise_if (rec_construct env);;
       modify (fun s => s <| mediaRecorderRef := true |>);;
       raise_if (rec_start env);;
       modify (fun s => s <| isRecording := true |>
                          <| isStreaming := true |>
                          <| recordingTime := 0 |>
                          <| realTimeResults := [] |>
                          <| streamError := JStr "" |>);;
       startFrameStreaming (rec_video env);;
       modify (fun s => s <| recordingIntervalRef := Some (now s + 1000) |>))
      (fun err =>
       modify (fun s => s <| alerts ::= cons (AlertRecordingError
         (if decide (err_message err = "") then "Recording failed"
          else err_message err)) |>)).

(** lines 373-384.  [requestData] is the error [mr.requestData()] throws, if
    any.  The delayed [mr.stop()] belongs to the recorder and is left out. *)
Definition stopRecording (requestData : option js_error) : js unit :=
  s ← get;
  if negb (mediaRecorderRef s) || negb (isRecording s) then mret tt else
  try_catch (raise_if requestData) (fun _ => mret tt);;
  modify (fun s => s <| isRecording := false |>);;
  modify (fun s => s <| isStreaming := false |>);;
  clearRecordingInterval;;
  clearStreamingInterval;;
  modify (fun s => s <| frameInFlightRef := false |>).

(** ** The event loop *)

Inductive event : Type :=
| Elapse (ms : Z)
| SetApiUrl (url : string)
| StartCamera (granted : js_error + unit)
| StopCamera
| StartRecording (env : record_env)
| StopRecording (requestData : option js_error)
| RecordingTick
| FrameTick (env : tick_env)
| FetchRejects (id : nat) (err : js_error)
| AbortTimer (id : nat)
| FetchFulfils (id : nat) (status : N)
| TextSettles (id : nat) (text : js_error + string)
| JsonSettles (id : nat) (result : js_error + json_body).

(** The timer after it has fired once. *)
Definition tick_again (iv : interval) : interval :=
  iv <| iv_due ::= Z.add FRAME_INTERVAL_MS |>.

Definition settled {A} (r : js_error + A) (k : A -> js progress) : js progress :=
  match r with
  | inl err => throw err
  | inr x => k x
  end.

(** The request [id] when it is suspended at an await point satisfying [p]. *)
Definition awaiting (s : state) (id : nat) (p : await_point -> bool) :
    option frame_request :=
  r ← pending s !! id;
  if p (req_await r) then Some r else None.

Definition at_fetch (p : await_point) : bool :=
  match p with AwaitFetch => true | _ => false end.
Definition at_text (p : await_point) : bool :=
  match p with AwaitText _ => true | _ => false end.
Definition at_json (p : await_point) : bool :=
  match p with AwaitJson => true | _ => false end.

(** [step s e] is the state after the event loop has run the task of [e] in
    [s], and [None] when [e] cannot happen in [s]: time does not run
    backwards, a timer fires only while it is set and due, and a promise
    settles only while the callback awaits it. *)
Definition step (s : state) (e : event) : option state :=
  match e with
  | Elapse ms =>
      if bool_decide (0 <= ms) then Some (s <| now ::= Z.add ms |>) else None
  | SetApiUrl url => Some (s <| apiUrl := url |>)
  | StartCamera granted => Some (exec (startCamera granted) s)
  | StopCamera => Some (exec stopCamera s)
  | StartRecording env => Some (exec (startRecording env) s)
  | StopRecording requestData => Some (exec (stopRecording requestData) s)
  | RecordingTick =>
      due ← recordingIntervalRef s;
      if bool_decide (due <= now s) then
        Some (s <| recordingIntervalRef := Some (due + 1000) |>
                <| recordingTime ::= Z.add 1 |>)
      else None
  | FrameTick env =>
      iv ← streamingIntervalRef s;
      if bool_decide (iv_due iv <= now s) then
        Some (exec (frameTick (iv_apiUrl iv) env)
                (s <| streamingIntervalRef := Some (tick_again iv) |>))
      else None
  | FetchRejects id err =>
      _ ← awaiting s id at_fetch;
      Some (exec (resume id (throw err)) s)
  | AbortTimer id =>
      r ← awaiting s id at_fetch;
      due ← req_abort r;
      if bool_decide (due <= now s) then
        Some (exec (resume id (throw abort_error)) s)
      else None
  | FetchFulfils id status =>
      _ ← awaiting s id at_fetch;
      Some (exec (resume id (afterFetch id status)) s)
  | TextSettles id text =>
      r ← awaiting s id at_text;
      match req_await r with
      | AwaitText status => Some (exec (resume id (settled text (afterText status))) s)
      | _ => None
      end
  | JsonSettles id result =>
      _ ← awaiting s id at_json;
      Some (exec (resume id (settled result afterJson)) s)
  end.

Fixpoint run (s : state) (trace : list event) : option state :=
  match trace with
  | [] => Some s
  | e :: trace' => s' ← step s e; run s' trace'
  end.

(** The states the component can be in. *)
Definition reachable (s : state) : Prop :=
  ∃ url speech trace, run (mounted url speech) trace = Some s.

(** ** Notions used in the statements *)

(** The capture source can produce a frame now: the guards of lines 249
    and 257 both pass. *)
Definition can_capture (env : tick_env) : bool :=
  video_ready (tick_video env) && tick_context2d env.

(** The ways one capture-analyze cycle can end once its request is out, as
    the events that follow the tick for request [id]. *)
Inductive outcome : Type :=
| Responds (status : N) (text : js_error + string) (result : js_error + json_body)
| Rejects (err : js_error)
| TimesOut (late : N).

Definition cycle (id : nat) (o : outcome) : list event :=
  match o with
  | Responds status text result =>
      [FetchFulfils id status;
       if response_ok status then JsonSettles id result else TextSettles id text]
  | Rejects err => [FetchRejects id err]
  | TimesOut late => [Elapse (FRAME_TIMEOUT_MS + Z.of_N late); AbortTimer id]
  end.

(** What [speakPrediction answer] does to the state. *)
Definition say (s : state) (answer : jsval) : state :=
  if hasSpeechSynthesis s
  then s <| speechQueue := [answer] |>
         <| utterances ::= (fun h => (h ++ [answer])%list) |>
  else s.

(** Where the callback waits once [fetch] has answered with [status]. *)
Definition next_await (status : N) : await_point :=
  if response_ok status then AwaitJson else AwaitText status.

(** The request whose callback runs to its end in event [e]. *)
Definition completes (e : event) : option nat :=
  match e with
  | FetchRejects id _ | AbortTimer id | TextSettles id _ | JsonSettles id _ => Some id
  | _ => None
  end.

(** The guard's intended invariant: the flag is set exactly while one
    request is outstanding, and request ids are fresh. *)
Definition single_flight (s : state) : Prop :=
  (∀ id, (nextRequest s <= id)%nat → pending s !! id = None) ∧
  size (pending s) = (if frameInFlightRef s then 1 else 0)%nat.

(** The handlers that reset [frameInFlightRef] by hand. *)
Definition restarts (e : event) : bool :=
  match e with
  | StopCamera | StartRecording _ | StopRecording _ => true
  | _ => false
  end.

(** A trace in which the flag is never reset by hand while a request is
    outstanding. *)
Fixpoint undisturbed (s : state) (trace : list event) : Prop :=
  match trace with
  | [] => True
  | e :: trace' =>
      (restarts e = true → pending s = ∅) ∧
      match step s e with
      | Some s' => undisturbed s' trace'
      | None => True
      end
  end.

(** The entry that event [e] adds to the result log in state [s], if any. *)
Definition logged (s : state) (e : event) : option RealTimeResult :=
  match e with
  | JsonSettles id (inr (BodyFields success answer question error)) =>
      _ ← awaiting s id at_json;
      if truthy success && truthy answer
      then Some (entry_of s (normalize answer) question)
      else None
  | _ => None
  end.

(** The entries added along a trace, in arrival order. *)
Fixpoint arrivals (s : state) (trace : list event) : list RealTimeResult :=
  match trace with
  | [] => []
  | e :: trace' =>
      match step s e with
      | Some s' => option_list (logged s e) ++ arrivals s' trace'
      | None => []
      end
  end%list.

(** The handlers that empty the result log. *)
Definition resets_log (e : event) : bool :=
  match e with
  | StartCamera _ | StartRecording _ => true
  | _ => false
  end.

(** The request [r] was sent no later than time [t], and its abort timer is
    armed, due 15 seconds after sending, exactly while [fetch] is
    unanswered. *)
Definition timely (t : Z) (r : frame_request) : Prop :=
  req_timestamp r <= t ∧
  req_abort r =
    match req_await r with
    | AwaitFetch => Some (req_timestamp r + 15000)
    | _ => None
    end.

Definition timed (s : state) : Prop :=
  ∀ id r, pending s !! id = Some r → timely (now s) r.

(** One timer tick per element of [envs], an interval apart, each finding
    the capture source as its element says. *)
Fixpoint ticks (envs : list tick_env) : list event :=
  match envs with
  | [] => []
  | env :: envs' => Elapse 2500 :: FrameTick env :: ticks envs'
  end.

(** ** Concrete scenarios *)

Definition camera_ready : video_element :=
  {| readyState := 4; videoWidth := 1280; videoHeight := 720 |}.

Definition camera_cold : video_element :=
  {| readyState := 0; videoWidth := 0; videoHeight := 0 |}.

Definition frame_ready : tick_env :=
  {| tick_video := Some camera_ready;
     tick_context2d := true;
     tick_jpeg := "data:image/jpeg;base64,/9j/4AAQ" |}.

Definition frame_cold : tick_env :=
  {| tick_video := Some camera_cold;
     tick_context2d := true;
     tick_jpeg := "data:," |}.

Definition recorder_ready : record_env :=
  {| rec_video := Some camera_ready; rec_construct := None; rec_start := None |}.

Definition recorder_cold : record_env :=
  {| rec_video := Some camera_cold; rec_construct := None; rec_start := None |}.

Definition says (answer : string) : json_body :=
  BodyFields (JBool true) (JStr answer) JUndefined JUndefined.

Definition fresh : state := mounted "http://localhost:5000" true.

(** The state after a trace from the freshly mounted component. *)
Definition after (trace : list event) : state := default fresh (run fresh trace).

(** Camera on, recording started, first tick due. *)
Definition recording : list event :=
  [StartCamera (inr tt); StartRecording recorder_ready; Elapse 2500].

Definition recording_state : state := after recording.

(** The streaming timer as [startRecording] sets it at time 0. *)
Definition first_interval : interval :=
  {| iv_due := 2500; iv_apiUrl := "http://localhost:5000" |}.

(** ... and the first frame sent as request 0. *)
Definition first_frame_sent : list event := recording ++ [FrameTick frame_ready].

Definition sent_state : state := after first_frame_sent.

(** [n] successful cycles, the request ids counting from [id]; the [k]-th
    answer is the decimal of its request id. *)
Fixpoint successful_cycles (id n : nat) : list event :=
  match n with
  | O => []
  | S n' =>
      [FrameTick frame_ready; Elapse 800; FetchFulfils id 200;
       JsonSettles id (inr (says (decimal (N.of_nat id)))); Elapse 1700]
      ++ successful_cycles (S id) n'
  end%list.

(** Request 0 as the first tick issues it. *)
Definition first_request : frame_request :=
  frame_request_of recording_state "http://localhost:5000" (tick_jpeg frame_ready).

(** The response to request 0 has arrived with status 200 and its body is
    being read. *)
Definition answering_state : state :=
  after (first_frame_sent ++ [Elapse 800; FetchFulfils 0 200]).

Definition answering_request : frame_request :=
  first_request <| req_abort := None |> <| req_await := AwaitJson |>.

(** Request 0 has been out for 15 seconds without an answer. *)
Definition overdue_state : state := after (first_frame_sent ++ [Elapse 15000]).

(** The camera is on and nothing is being recorded. *)
Definition camera_state : state := after [StartCamera (inr tt)].

(** Twenty-one successful cycles of one recording. *)
Definition full_session : list event := successful_cycles 0 21.
Definition full_state : state := after (recording ++ full_session).

(** Request 0 is still out when recording is stopped and started again; the
    new loop sends request 1, the late response to request 0 clears the
    flag, and the next tick sends request 2 while request 1 is still out. *)
Definition restart_while_pending : list event :=
  first_frame_sent ++
  [Elapse 500; StopRecording None;
   Elapse 500; StartRecording recorder_ready;
   Elapse 2500; FrameTick frame_ready;
   Elapse 1000; FetchFulfils 0 200; JsonSettles 0 (inr (says "dog"));
   Elapse 1500; FrameTick frame_ready].

(** * Proofs *)

(** ** Running handlers symbolically *)

(** Unfold the handlers and the monad, leaving the guards to case on. *)
Ltac js_run :=
  cbv [step awaiting at_fetch at_text at_json
       exec stopRecording stopCamera startCamera startRecording
       startFrameStreaming frameTick fetchFrame speakPrediction resume settled
       afterFetch afterText afterJson catchClause finallyClause raise_if
       tick_again frame_request_of http_error surfaced entry_of say next_await
       clearRecordingInterval clearStreamingInterval setStreamError
       try_catch try_finally throw get modify
       mbind js_bind mret js_ret option_bind
       apply_update constant fst snd
       now hasSpeechSynthesis speechQueue utterances alerts pending nextRequest
       apiUrl isRecording isCameraActive recordingTime mediaStream
       realTimeResults isStreaming streamError captureCanvasRef mediaRecorderRef
       recordingIntervalRef streamingIntervalRef frameInFlightRef
       iv_due iv_apiUrl req_url req_data req_timestamp req_question req_abort
       req_await tick_video tick_context2d tick_jpeg rec_video rec_construct
       rec_start] in *.

(** A guard that is not itself a case distinction. *)
Ltac plain b :=
  lazymatch b with
  | context [match _ with _ => _ end] => fail
  | _ => idtac
  end.

Ltac js_case_in H :=
  match type of H with
  | context [match ?x with _ => _ end] => is_var x; destruct x
  | context [if bool_decide ?P then _ else _] => destruct (bool_decide_reflect P)
  | context [if decide ?P then _ else _] => destruct (decide P)
  | context [match ?m !! ?i with _ => _ end] => destruct (m !! i) eqn:?
  | context [if ?b then _ else _] => plain b; destruct b eqn:?
  | context [match ?f ?x with _ => _ end] => is_var x; destruct (f x) eqn:?
  end.

Ltac js_case :=
  match goal with
  | |- context [match ?x with _ => _ end] => is_var x; destruct x
  | |- context [if bool_decide ?P then _ else _] => destruct (bool_decide_reflect P)
  | |- context [if decide ?P then _ else _] => destruct (decide P)
  | |- context [match ?m !! ?i with _ => _ end] => destruct (m !! i) eqn:?
  | |- context [if ?b then _ else _] => plain b; destruct b eqn:?
  | |- context [match ?f ?x with _ => _ end] => is_var x; destruct (f x) eqn:?
  end.

(** Follow a step [H : step s e = Some s'] through every guard and replace
    [s'] by the state it produces. *)
Ltac js_invert H :=
  js_run; repeat (js_case_in H; js_run);
  first [discriminate H | injection H as <- | idtac].

(** ** Lists and strings *)

Lemma length_slice_last {A} n (l : list A) :
  length (slice_last n l) = (n `min` length l)%nat.
Proof. unfold slice_last. rewrite length_drop. lia. Qed.

Lemma slice_last_all {A} n (l : list A) :
  (length l <= n)%nat → slice_last n l = l.
Proof.
  intros H. unfold slice_last.
  by replace (length l - n)%nat with 0%nat by lia.
Qed.

Lemma slice_last_snoc {A} n (l : list A) x :
  slice_last (S n) (l ++ [x]) = (slice_last n l ++ [x])%list.
Proof.
  unfold slice_last. rewrite length_app. cbn [length].
  replace (length l + 1 - S n)%nat with (length l - n)%nat by lia.
  apply drop_app_le. lia.
Qed.

Lemma slice_last_idem {A} n m (l : list A) :
  (n <= m)%nat → slice_last n (slice_last m l) = slice_last n l.
Proof.
  intros H. unfold slice_last. rewrite length_drop, drop_drop. f_equal. lia.
Qed.

Lemma length_appendResult entry prev :
  (length (appendResult entry prev) <= 20)%nat.
Proof.
  unfold appendResult. rewrite length_app, length_slice_last.
  change (length [entry]) with 1%nat. lia.
Qed.

(** Appending to the last 20 of a history yields the last 20 of the longer
    history. *)
Lemma appendResult_slice_last entry history :
  appendResult entry (slice_last 20 history) = slice_last 20 (history ++ [entry]).
Proof.
  unfold appendResult. rewrite slice_last_idem by lia.
  symmetry. apply slice_last_snoc.
Qed.

Lemma length_slice_prefix n text :
  (String.length (slice_prefix n text) <= n)%nat.
Proof.
  unfold slice_prefix. revert text.
  induction n as [|n IH]; intros [|c text]; cbn; try lia.
  apply le_n_S, IH.
Qed.

Lemma slice_prefix_is_prefix n text :
  String.prefix (slice_prefix n text) text = true.
Proof.
  unfold slice_prefix. revert text.
  induction n as [|n IH]; intros [|c text]; cbn; try done.
  destruct (Ascii.ascii_dec c c); [apply IH | done].
Qed.

Lemma slice_prefix_short n text :
  (String.length text <= n)%nat → slice_prefix n text = text.
Proof.
  unfold slice_prefix. revert text.
  induction n as [|n IH]; intros [|c text]; cbn; try done; try lia.
  intros H. f_equal. apply IH. by apply le_S_n.
Qed.

Lemma size_alter {A} (f : A → A) (id : nat) (m : gmap nat A) :
  size (alter f id m) = size m.
Proof. rewrite <- !size_dom. by rewrite dom_alter_L. Qed.

(** ** What each event does *)

Lemma frame_tick_skipped s env iv :
  streamingIntervalRef s = Some iv → iv_due iv <= now s →
  frameInFlightRef s = true ∨ video_ready (tick_video env) = false →
  step s (FrameTick env) = Some (s <| streamingIntervalRef := Some (tick_again iv) |>).
Proof.
  intros Hiv Hdue Hskip. destruct s, iv, env. unfold video_ready in *. js_run.
  simplify_eq. rewrite bool_decide_eq_true_2 by done.
  destruct frameInFlightRef0; [done|].
  destruct Hskip as [?|Hskip]; [done|].
  destruct tick_video0 as [v|]; [|done].
  apply negb_false_iff in Hskip. by rewrite Hskip.
Qed.

Lemma frame_tick_sends s env iv videoEl :
  streamingIntervalRef s = Some iv → iv_due iv <= now s →
  frameInFlightRef s = false →
  tick_video env = Some videoEl → can_capture env = true →
  step s (FrameTick env) =
    Some (s <| streamingIntervalRef := Some (tick_again iv) |>
            <| captureCanvasRef := Some {| canvas_width := videoWidth videoEl;
                                           canvas_height := videoHeight videoEl |} |>
            <| frameInFlightRef := true |>
            <| streamError := JStr "" |>
            <| pending ::= insert (nextRequest s)
                 (frame_request_of s (iv_apiUrl iv) (tick_jpeg env)) |>
            <| nextRequest ::= S |>).
Proof.
  intros Hiv Hdue Hfl Hv Hcap. destruct s, iv, env.
  unfold can_capture, video_ready in *. js_run.
  simplify_eq. rewrite bool_decide_eq_true_2 by done.
  apply andb_true_iff in Hcap as [Hready ->].
  apply negb_true_iff in Hready. by rewrite Hready.
Qed.

Lemma frame_tick_sets_flag s env s1 :
  step s (FrameTick env) = Some s1 →
  frameInFlightRef s = false → frameInFlightRef s1 = true →
  ∃ iv videoEl, streamingIntervalRef s = Some iv ∧ iv_due iv <= now s ∧
    tick_video env = Some videoEl ∧ can_capture env = true.
Proof.
  intros Hstep Hfl Hfl1. destruct s, env. unfold can_capture, video_ready.
  js_invert Hstep; simplify_eq.
  eexists _, _. repeat split; try done.
  js_run. by destruct tick_context2d0.
Qed.

Lemma frame_tick_disabled s env :
  streamingIntervalRef s = None → step s (FrameTick env) = None.
Proof. intros H. destruct s. js_run. by subst. Qed.

Lemma fetch_rejects s id r err :
  pending s !! id = Some r → req_await r = AwaitFetch →
  step s (FetchRejects id err) =
    Some (s <| pending ::= delete id |>
            <| streamError := JStr (surfaced err) |>
            <| frameInFlightRef := false |>).
Proof.
  intros Hr Hawait. destruct s, r, err. js_run. simplify_eq.
  rewrite Hr. js_run. repeat js_case; done.
Qed.

Lemma abort_timer_fires s id r due :
  pending s !! id = Some r → req_await r = AwaitFetch →
  req_abort r = Some due → due <= now s →
  step s (AbortTimer id) =
    Some (s <| pending ::= delete id |>
            <| streamError := JStr TIMEOUT_MESSAGE |>
            <| frameInFlightRef := false |>).
Proof.
  intros Hr Hawait Habort Hdue. destruct s, r. js_run. simplify_eq.
  rewrite Hr. js_run. rewrite bool_decide_eq_true_2 by done. done.
Qed.

Lemma abort_timer_early s id r due :
  pending s !! id = Some r → req_abort r = Some due → now s < due →
  step s (AbortTimer id) = None.
Proof.
  intros Hr Habort Hdue. destruct s, r. js_run. simplify_eq.
  rewrite Hr. js_run. destruct req_await0; try done.
  rewrite bool_decide_eq_false_2 by lia. done.
Qed.

Lemma alter_lookup_insert {A} (f : A → A) (id : nat) (m : gmap nat A) x :
  m !! id = Some x → alter f id m = <[id := f x]> m.
Proof.
  intros H. apply map_eq. intros i. rewrite lookup_alter, lookup_insert.
  destruct (decide (id = i)); subst; [by rewrite H|done].
Qed.

Lemma fetch_fulfils s id r status :
  pending s !! id = Some r → req_await r = AwaitFetch →
  step s (FetchFulfils id status) =
    Some (s <| pending ::= insert id
                 (r <| req_abort := None |> <| req_await := next_await status |>) |>).
Proof.
  intros Hr Hawait. destruct s, r. js_run. simplify_eq.
  rewrite Hr. js_run.
  destruct (response_ok status); js_run; do 2 f_equal.
  all: erewrite (alter_lookup_insert _ _ (alter _ _ _));
    [|by rewrite lookup_alter_eq, Hr].
  all: cbn; by rewrite (alter_lookup_insert _ _ _ _ Hr), insert_insert_eq.
Qed.

Lemma text_settles s id r status text :
  pending s !! id = Some r → req_await r = AwaitText status →
  step s (TextSettles id text) =
    Some (s <| pending ::= delete id |>
            <| streamError := JStr (surfaced
                 (match text with inl err => err | inr body => http_error status body end)) |>
            <| frameInFlightRef := false |>).
Proof.
  intros Hr Hawait. destruct s, r. js_run. simplify_eq.
  rewrite Hr. js_run. destruct text as [[]|]; js_run; repeat js_case; done.
Qed.

Lemma json_settles_answer s id r success answer question error :
  pending s !! id = Some r → req_await r = AwaitJson →
  truthy success = true → truthy answer = true →
  step s (JsonSettles id (inr (BodyFields success answer question error))) =
    Some ((say (s <| realTimeResults ::= appendResult (entry_of s (normalize answer) question) |>)
               (normalize answer))
            <| pending ::= delete id |>
            <| frameInFlightRef := false |>).
Proof.
  intros Hr Hawait Hs Ha. destruct s, r. js_run. simplify_eq.
  rewrite Hr. js_run. rewrite Hs, Ha. js_run.
  by destruct hasSpeechSynthesis0.
Qed.

Lemma json_settles_no_answer s id r success answer question error :
  pending s !! id = Some r → req_await r = AwaitJson →
  truthy success && truthy answer = false →
  step s (JsonSettles id (inr (BodyFields success answer question error))) =
    Some ((if truthy error then s <| streamError := error |> else s)
            <| pending ::= delete id |>
            <| frameInFlightRef := false |>).
Proof.
  intros Hr Hawait Hs. destruct s, r. js_run. simplify_eq.
  rewrite Hr. js_run. rewrite Hs. by destruct (truthy error).
Qed.

Lemma json_settles_null s id r :
  pending s !! id = Some r → req_await r = AwaitJson →
  step s (JsonSettles id (inr BodyNull)) =
    Some (s <| pending ::= delete id |>
            <| streamError := JStr (err_message null_read_error) |>
            <| frameInFlightRef := false |>).
Proof.
  intros Hr Hawait. destruct s, r. js_run. simplify_eq.
  rewrite Hr. js_run. repeat js_case; done.
Qed.

Lemma json_rejects s id r err :
  pending s !! id = Some r → req_await r = AwaitJson →
  step s (JsonSettles id (inl err)) =
    Some (s <| pending ::= delete id |>
            <| streamError := JStr (surfaced err) |>
            <| frameInFlightRef := false |>).
Proof.
  intros Hr Hawait. destruct s, r, err. js_run. simplify_eq.
  rewrite Hr. js_run. repeat js_case; done.
Qed.

(** Whatever ends the callback of request [id] clears the flag and retires
    the request. *)
Lemma completion_clears_flag s e id s' :
  completes e = Some id → step s e = Some s' →
  frameInFlightRef s' = false ∧ pending s' = delete id (pending s).
Proof.
  intros He Hstep. destruct e; simplify_eq/=; destruct s.
  all: js_invert Hstep; done.
Qed.

Lemma completion_enabled s e id r :
  completes e = Some id → pending s !! id = Some r →
  match e, req_await r with
  | FetchRejects _ _, AwaitFetch
  | TextSettles _ _, AwaitText _
  | JsonSettles _ _, AwaitJson => True
  | AbortTimer _, AwaitFetch => ∃ due, req_abort r = Some due ∧ due <= now s
  | _, _ => False
  end →
  is_Some (step s e).
Proof.
  intros He Hr Hen. destruct e; simplify_eq/=; destruct s, r; js_run; rewrite Hr; js_run.
  all: destruct req_await0; try done.
  destruct Hen as (due & -> & Hdue). by rewrite bool_decide_eq_true_2.
Qed.

(** ** Ticks that do nothing *)

(** C9.  A tick that fires while the capture source has zero width or a
    [readyState] below 2 (or is absent) sends no request, records no error,
    leaves the in-flight flag as it was, and leaves the timer set, due again
    one interval later; nothing else in the state changes. *)
Theorem tick_with_source_not_ready s env iv :
  streamingIntervalRef s = Some iv → iv_due iv <= now s →
  (∀ videoEl, tick_video env = Some videoEl →
     (videoWidth videoEl = 0 ∨ readyState videoEl < 2)%N) →
  ∃ s', step s (FrameTick env) = Some s' ∧
    s' = s <| streamingIntervalRef := Some (tick_again iv) |> ∧
    pending s' = pending s ∧
    nextRequest s' = nextRequest s ∧
    streamError s' = streamError s ∧
    frameInFlightRef s' = frameInFlightRef s ∧
    streamingIntervalRef s' = Some (tick_again iv) ∧
    iv_due (tick_again iv) = iv_due iv + FRAME_INTERVAL_MS.
Proof.
  intros Hiv Hdue Hcold. eexists. split.
  - apply frame_tick_skipped; [done..|]. right.
    unfold video_ready. destruct (tick_video env) as [videoEl|]; [|done].
    apply negb_false_iff, orb_true_iff.
    destruct (Hcold videoEl eq_refl) as [H|H].
    + right. by apply N.eqb_eq.
    + left. by apply N.ltb_lt.
  - destruct s, iv. repeat split; try done. cbn. lia.
Qed.

Lemma tick_with_source_not_ready_witness :
  streamingIntervalRef recording_state = Some first_interval ∧
  iv_due first_interval <= now recording_state ∧
  (∀ videoEl, tick_video frame_cold = Some videoEl →
     (videoWidth videoEl = 0 ∨ readyState videoEl < 2)%N) ∧
  ∃ s', step recording_state (FrameTick frame_cold) = Some s' ∧
    s' = recording_state <| streamingIntervalRef := Some (tick_again first_interval) |> ∧
    pending s' = pending recording_state ∧
    nextRequest s' = nextRequest recording_state ∧
    streamError s' = streamError recording_state ∧
    frameInFlightRef s' = frameInFlightRef recording_state ∧
    streamingIntervalRef s' = Some (tick_again first_interval) ∧
    iv_due (tick_again first_interval) = iv_due first_interval + FRAME_INTERVAL_MS.
Proof.
  assert (H1 : streamingIntervalRef recording_state = Some first_interval)
    by reflexivity.
  assert (H2 : iv_due first_interval <= now recording_state)
    by (vm_compute; discriminate).
  assert (H3 : ∀ videoEl, tick_video frame_cold = Some videoEl →
     (videoWidth videoEl = 0 ∨ readyState videoEl < 2)%N)
    by (intros videoEl [= <-]; left; reflexivity).
  split; [exact H1|]. split; [exact H2|]. split; [exact H3|].
  exact (tick_with_source_not_ready recording_state frame_cold first_interval H1 H2 H3).
Defined.

(** ** The in-flight guard *)

(** A tick that finds the flag set returns at once: only the timer moves on. *)
Lemma tick_skipped_while_in_flight s env iv :
  streamingIntervalRef s = Some iv → iv_due iv <= now s →
  frameInFlightRef s = true →
  step s (FrameTick env) = Some (s <| streamingIntervalRef := Some (tick_again iv) |>).
Proof. intros. apply frame_tick_skipped; auto. Qed.

Lemma single_flight_retire (m : gmap nat frame_request) id r (next : nat) (flag : bool) :
  (∀ id, (next <= id)%nat → m !! id = None) →
  size m = (if flag then 1 else 0)%nat →
  m !! id = Some r →
  (∀ id', (next <= id')%nat → delete id m !! id' = None) ∧ size (delete id m) = 0%nat.
Proof.
  intros Hfresh Hsize Hr. split.
  - intros id' Hid. apply lookup_delete_None. right. by apply Hfresh.
  - rewrite map_size_delete, Hr. destruct flag; [by rewrite Hsize|].
    apply map_size_empty_iff in Hsize. by rewrite Hsize, lookup_empty in Hr.
Qed.

(** Every event keeps the invariant, provided the flag is not reset by hand
    while a request is outstanding. *)
Lemma step_single_flight s e s' :
  single_flight s → step s e = Some s' →
  (restarts e = true → pending s = ∅) →
  single_flight s'.
Proof.
  intros [Hfresh Hsize] Hstep Hcalm.
  destruct e; cbn in Hcalm; destruct s; unfold single_flight.
  all: try (specialize (Hcalm eq_refl)).
  all: js_invert Hstep.
  all: try (by eapply single_flight_retire).
  all: try (split; [done|]).
  all: try by (subst; rewrite map_size_empty in *).
  all: try done.
  - (* a tick that sends *)
    split.
    + intros id Hid. rewrite lookup_insert_ne by lia. apply Hfresh. lia.
    + rewrite map_size_insert_None by (apply Hfresh; lia). by rewrite Hsize.
  - split; [|by rewrite !size_alter].
    intros id' Hid. rewrite !lookup_alter_None. by apply Hfresh.
  - split; [|by rewrite !size_alter].
    intros id' Hid. rewrite !lookup_alter_None. by apply Hfresh.
Qed.

Lemma single_flight_mounted url speech : single_flight (mounted url speech).
Proof. split; [intros id _; apply lookup_empty | done]. Qed.

Lemma single_flight_run s trace s' :
  single_flight s → undisturbed s trace → run s trace = Some s' →
  single_flight s'.
Proof.
  revert s. induction trace as [|e trace IH]; intros s Hs Hu Hrun; simplify_eq/=; [done|].
  destruct (step s e) as [s1|] eqn:Hstep; simplify_eq/=.
  destruct Hu as [Hcalm Hu]. eapply IH; [|done..].
  by eapply step_single_flight.
Qed.

Lemma single_flight_one s : single_flight s → (size (pending s) <= 1)%nat.
Proof. intros [_ ->]. destruct (frameInFlightRef s); lia. Qed.

(** So in an execution that never stops or starts recording while a request
    is outstanding, at most one request is outstanding at any time. *)
Lemma one_request_while_undisturbed url speech trace s :
  run (mounted url speech) trace = Some s →
  undisturbed (mounted url speech) trace →
  (size (pending s) <= 1)%nat.
Proof.
  intros Hrun Hcalm. apply single_flight_one.
  eapply single_flight_run; [apply single_flight_mounted|done..].
Qed.

(** C1.  The guard does not bound the outstanding requests at every time.
    Recording is stopped and started again while request 0 is still out:
    [stopRecording] and [startFrameStreaming] clear the flag without
    aborting the request, the new loop sends request 1, the late response
    to request 0 clears the flag again, and the next tick sends request 2.
    Requests 1 and 2, both sent by the running loop, are then outstanding
    together. *)
Theorem overlapping_requests_after_restart :
  ∃ s, run fresh restart_while_pending = Some s ∧
    is_Some (streamingIntervalRef s) ∧
    frameInFlightRef s = true ∧
    size (pending s) = 2%nat ∧
    req_timestamp <$> pending s !! 1%nat = Some 6000 ∧
    req_await <$> pending s !! 1%nat = Some AwaitFetch ∧
    req_timestamp <$> pending s !! 2%nat = Some 8500 ∧
    req_await <$> pending s !! 2%nat = Some AwaitFetch.
Proof.
  eexists. split; [vm_compute; reflexivity|].
  split; [by eexists|]. repeat split; vm_compute; reflexivity.
Qed.

(** ** Every cycle clears the flag *)

(** What a tick that sets the flag leaves behind. *)
Lemma frame_tick_sets_flag_state s env s1 :
  step s (FrameTick env) = Some s1 →
  frameInFlightRef s = false → frameInFlightRef s1 = true →
  ∃ iv, streamingIntervalRef s = Some iv ∧ iv_due iv <= now s ∧
    streamingIntervalRef s1 = Some (tick_again iv) ∧
    now s1 = now s ∧ nextRequest s1 = S (nextRequest s) ∧
    streamError s1 = JStr "" ∧
    realTimeResults s1 = realTimeResults s ∧
    pending s1 = <[nextRequest s := frame_request_of s (iv_apiUrl iv) (tick_jpeg env)]> (pending s).
Proof.
  intros Hstep Hfl Hfl1.
  destruct (frame_tick_sets_flag _ _ _ Hstep Hfl Hfl1) as (iv & videoEl & Hiv & Hdue & Hv & Hcap).
  rewrite (frame_tick_sends _ _ _ _ Hiv Hdue Hfl Hv Hcap) in Hstep.
  injection Hstep as <-. exists iv. by destruct s.
Qed.

Lemma elapse s ms :
  0 <= ms → step s (Elapse ms) = Some (s <| now ::= Z.add ms |>).
Proof. intros H. unfold step. by rewrite bool_decide_eq_true_2. Qed.

(** The cycle a tick starts can end in each of the ways of [outcome], and
    then leaves the flag clear and the request retired. *)
Lemma cycle_ends_with_flag_clear s env s1 o :
  step s (FrameTick env) = Some s1 →
  frameInFlightRef s = false → frameInFlightRef s1 = true →
  ∃ s2, run s1 (cycle (nextRequest s) o) = Some s2 ∧
    frameInFlightRef s2 = false ∧
    pending s2 !! nextRequest s = None.
Proof.
  intros Hstep Hfl Hfl1.
  destruct (frame_tick_sets_flag_state _ _ _ Hstep Hfl Hfl1)
    as (iv & _ & _ & _ & Hnow & _ & _ & _ & Hpending).
  set (id := nextRequest s) in *.
  set (r := frame_request_of s (iv_apiUrl iv) (tick_jpeg env)) in *.
  assert (Hr : pending s1 !! id = Some r) by (by rewrite Hpending, lookup_insert_eq).
  assert (Hdone : ∀ s' e, completes e = Some id → is_Some (step s' e) →
    ∃ s2, step s' e = Some s2 ∧ frameInFlightRef s2 = false ∧ pending s2 !! id = None).
  { intros s' e He [s2 Hs2]. exists s2. split; [done|].
    destruct (completion_clears_flag _ _ _ _ He Hs2) as [? ->].
    by rewrite lookup_delete_eq. }
  destruct o as [status text result|err|late]; cbn [cycle run].
  - rewrite (fetch_fulfils _ _ _ status Hr eq_refl). cbn [mbind option_bind].
    match goal with |- context [step ?s' _] => set (s1' := s') end.
    assert (Hr' : pending s1' !! id = Some (r <| req_abort := None |> <| req_await := next_await status |>)).
    { subst s1'. destruct s1. cbn. apply lookup_insert_eq. }
    unfold next_await in Hr'.
    destruct (response_ok status).
    + destruct (Hdone s1' (JsonSettles id result) eq_refl) as (s2 & -> & ?).
      { by eapply completion_enabled. }
      by exists s2.
    + destruct (Hdone s1' (TextSettles id text) eq_refl) as (s2 & -> & ?).
      { by eapply completion_enabled. }
      by exists s2.
  - destruct (Hdone s1 (FetchRejects id err) eq_refl) as (s2 & -> & ?).
    { by eapply completion_enabled. }
    by exists s2.
  - rewrite elapse by (unfold FRAME_TIMEOUT_MS; lia).
    cbn [mbind option_bind].
    match goal with |- context [step ?s' _] => set (s1' := s') end.
    destruct (Hdone s1' (AbortTimer id) eq_refl) as (s2 & -> & ?).
    { eapply (completion_enabled _ _ _ r); [done| |].
      - subst s1'. by destruct s1.
      - cbn. eexists. split; [done|]. subst s1'. destruct s1; cbn in *. subst. lia. }
    by exists s2.
Qed.

(** While the flag is set, ticks come and go without effect. *)
Lemma ticks_skipped envs : ∀ s iv,
  frameInFlightRef s = true → streamingIntervalRef s = Some iv →
  iv_due iv <= now s + 2500 →
  ∃ s', run s (ticks envs) = Some s' ∧
    frameInFlightRef s' = true ∧ pending s' = pending s ∧
    nextRequest s' = nextRequest s ∧ streamError s' = streamError s ∧
    now s' = now s + 2500 * Z.of_nat (length envs).
Proof.
  induction envs as [|env envs IH]; intros s iv Hfl Hiv Hdue.
  { exists s. cbn. repeat split; try done. lia. }
  cbn [ticks run]. rewrite elapse by lia. cbn [mbind option_bind].
  rewrite (tick_skipped_while_in_flight _ env iv); [| |destruct s; cbn in *; lia|];
    [|by destruct s..].
  cbn [mbind option_bind].
  match goal with |- context [run ?s0 _] => set (s1 := s0) end.
  destruct (IH s1 (tick_again iv)) as (s' & Hrun & Hfl' & Hp & Hn & He & Hnow).
  { by destruct s. }
  { by destruct s. }
  { destruct s, iv; cbn in *. unfold FRAME_INTERVAL_MS. lia. }
  exists s'. split; [done|]. rewrite Hfl', Hp, Hn, He, Hnow.
  destruct s; cbn. repeat split; try done. cbn [length]. lia.
Qed.

(** C2 fails in its conclusion.  The response to request 0 arrives (status
    200) one second after the request, which clears the abort timer; its
    body never does.  A minute later the flag is still set, the abort timer
    cannot fire, and however many ticks follow, each is skipped: no request
    is sent and the flag stays set. *)
Lemma flag_stays_set_when_body_stalls :
  ∃ s, run sent_state [Elapse 1000; FetchFulfils 0 200; Elapse 60000] = Some s ∧
    now s = 63500 ∧
    req_await <$> pending s !! 0%nat = Some AwaitJson ∧
    frameInFlightRef s = true ∧
    step s (AbortTimer 0) = None ∧
    (∃ s', run s [Elapse 2500; FrameTick frame_ready;
                  Elapse 2500; FrameTick frame_ready] = Some s' ∧
       frameInFlightRef s' = true ∧ size (pending s') = 1%nat ∧
       nextRequest s' = 1%nat) ∧
    ∀ envs, ∃ s', run s (ticks envs) = Some s' ∧
      frameInFlightRef s' = true ∧ pending s' = pending s ∧
      nextRequest s' = nextRequest s.
Proof.
  eexists. split; [vm_compute; reflexivity|].
  split; [reflexivity|]. split; [vm_compute; reflexivity|].
  split; [reflexivity|]. split; [vm_compute; reflexivity|].
  split.
  { eexists. split; [vm_compute; reflexivity|].
    split; [reflexivity|]. split; [vm_compute; reflexivity|reflexivity]. }
  intros envs.
  match goal with |- context [run ?s0 _] => set (s := s0) end.
  destruct (ticks_skipped envs s {| iv_due := 5000; iv_apiUrl := "http://localhost:5000" |})
    as (s' & Hrun & Hfl & Hp & Hn & _); [reflexivity..|vm_compute; discriminate|].
  by exists s'.
Qed.

(** C2, amended.  Whenever a tick sets the in-flight flag, the cycle it
    starts can end in each of these ways, and then leaves the flag clear and
    the request retired: a response of any status whose body is read or
    fails to be read (success, non-2xx, malformed JSON), a rejected [fetch]
    (network error), or the abort timer firing 15 seconds or more after the
    request; and in whatever later state the callback of that request runs
    to its end, it leaves the flag clear.  But the cycle need not end: once
    the response has arrived its abort timer is off, and for as long as the
    body has not, the flag stays set and every tick is skipped. *)
Theorem in_flight_flag_cleared_when_cycle_ends s env s1 o :
  step s (FrameTick env) = Some s1 →
  frameInFlightRef s = false → frameInFlightRef s1 = true →
  (∃ s2, run s1 (cycle (nextRequest s) o) = Some s2 ∧
     frameInFlightRef s2 = false ∧
     pending s2 !! nextRequest s = None) ∧
  (∀ later e s2,
     completes e = Some (nextRequest s) → step later e = Some s2 →
     frameInFlightRef s2 = false) ∧
  (∀ status envs, ∃ s3,
     run s1 (FetchFulfils (nextRequest s) status :: ticks envs) = Some s3 ∧
     frameInFlightRef s3 = true ∧
     is_Some (pending s3 !! nextRequest s) ∧
     nextRequest s3 = nextRequest s1 ∧
     step s3 (AbortTimer (nextRequest s)) = None).
Proof.
  intros Hstep Hfl Hfl1. split; [by apply (cycle_ends_with_flag_clear _ env)|split].
  { intros later e s2 He Hs2. by destruct (completion_clears_flag _ _ _ _ He Hs2). }
  destruct (frame_tick_sets_flag_state _ _ _ Hstep Hfl Hfl1)
    as (iv & Hiv & Hdue & Hiv1 & Hnow & _ & _ & _ & Hpending).
  set (id := nextRequest s) in *.
  set (r := frame_request_of s (iv_apiUrl iv) (tick_jpeg env)) in *.
  assert (Hr : pending s1 !! id = Some r) by (by rewrite Hpending, lookup_insert_eq).
  intros status envs. cbn [run].
  rewrite (fetch_fulfils _ _ _ status Hr eq_refl). cbn [mbind option_bind].
  match goal with |- context [run ?s0 _] => set (s2 := s0) end.
  destruct (ticks_skipped envs s2 (tick_again iv))
    as (s3 & Hrun & Hfl3 & Hp & Hn & _).
  { by destruct s1. }
  { by destruct s1. }
  { destruct s1, iv; cbn in *. unfold FRAME_INTERVAL_MS. lia. }
  exists s3. split; [done|]. split; [done|].
  assert (Hr3 : pending s3 !! id =
            Some (r <| req_abort := None |> <| req_await := next_await status |>)).
  { rewrite Hp. subst s2. destruct s1. cbn. apply lookup_insert_eq. }
  split; [by eexists|]. split; [by rewrite Hn; destruct s1|].
  destruct s3. js_run. rewrite Hr3. js_run. by destruct (response_ok status).
Qed.

Lemma in_flight_flag_cleared_when_cycle_ends_witness :
  step recording_state (FrameTick frame_ready) = Some sent_state ∧
  frameInFlightRef recording_state = false ∧
  frameInFlightRef sent_state = true ∧
  (∃ s2, run sent_state (cycle (nextRequest recording_state) (TimesOut 0)) = Some s2 ∧
     frameInFlightRef s2 = false ∧
     pending s2 !! nextRequest recording_state = None) ∧
  completes (JsonSettles 0 (inr (says "dog"))) = Some (nextRequest recording_state) ∧
  (∃ s2, step answering_state (JsonSettles 0 (inr (says "dog"))) = Some s2 ∧
     frameInFlightRef s2 = false) ∧
  ∃ s3, run sent_state
          [FetchFulfils 0 200;
           Elapse 2500; FrameTick frame_ready; Elapse 2500; FrameTick frame_ready]
        = Some s3 ∧
    frameInFlightRef s3 = true ∧
    is_Some (pending s3 !! 0%nat) ∧
    nextRequest s3 = 1%nat ∧
    step s3 (AbortTimer 0) = None.
Proof.
  assert (H1 : step recording_state (FrameTick frame_ready) = Some sent_state)
    by (vm_compute; reflexivity).
  assert (H2 : frameInFlightRef recording_state = false) by reflexivity.
  assert (H3 : frameInFlightRef sent_state = true) by reflexivity.
  split; [exact H1|]. split; [exact H2|]. split; [exact H3|].
  destruct (in_flight_flag_cleared_when_cycle_ends recording_state frame_ready
              sent_state (TimesOut 0) H1 H2 H3) as (Hcycle & Hlater & Hstall).
  split; [exact Hcycle|]. split; [reflexivity|].
  split; [|exact (Hstall 200%N [frame_ready; frame_ready])].
  eexists. split; [vm_compute; reflexivity|].
  apply (Hlater answering_state (JsonSettles 0 (inr (says "dog")))); reflexivity.
Defined.

(** ** The request timeout *)

Lemma timely_later t t' r : timely t r → t <= t' → timely t' r.
Proof. intros [? ?] ?. split; [lia|done]. Qed.

(** Every outstanding request was sent in the past, and its abort timer is
    armed exactly while [fetch] is unanswered: line 270 arms it for 15
    seconds after the request, line 285 disarms it. *)
Lemma step_timed s e s' : timed s → step s e = Some s' → timed s'.
Proof.
  intros Ht Hstep. destruct e; destruct s; unfold timed in *; cbn in Ht.
  all: js_invert Hstep; try done.
  all: intros id' r' Hr.
  all: repeat first
    [ apply lookup_delete_Some in Hr as [? Hr]
    | apply lookup_insert_Some in Hr as [[<- <-]|[? Hr]]
    | apply lookup_alter_Some in Hr as [(? & ? & Hr & ->)|[? Hr]] ].
  all: try (by apply Ht).
  all: try (eapply timely_later; [eapply Ht, Hr|lia]).
  all: try (split; cbn; [lia|done]).
  all: try (match goal with H : _ !! _ = Some _ |- _ => apply Ht in H as [? ?] end;
            split; cbn in *; done).
Qed.

Lemma timed_mounted url speech : timed (mounted url speech).
Proof. intros id r Hr. cbn in Hr. by rewrite lookup_empty in Hr. Qed.

Lemma run_timed trace : ∀ s s', timed s → run s trace = Some s' → timed s'.
Proof.
  induction trace as [|e trace IH]; intros s s' Ht Hrun; cbn in Hrun.
  - by simplify_eq.
  - destruct (step s e) as [s1|] eqn:Hstep; [|done].
    cbn in Hrun. eapply IH; [|done]. by eapply step_timed.
Qed.

Lemma reachable_timed s : reachable s → timed s.
Proof.
  intros (url & speech & trace & Hrun).
  eapply run_timed; [apply timed_mounted|done].
Qed.

(** C6 fails for a response that takes more than 15 seconds to finish.
    Request 0 is sent at 2.5 s; its response (status 200) starts arriving
    one second later, which disarms the abort timer, and the body takes
    another minute.  At 63.5 s the request is still outstanding and the
    flag still set, the abort timer cannot fire, and no message is
    displayed; when the body has arrived, the answer is logged and still no
    timeout message is displayed. *)
Lemma slow_body_is_not_aborted :
  ∃ s s',
    req_timestamp <$> pending sent_state !! 0%nat = Some 2500 ∧
    run sent_state [Elapse 1000; FetchFulfils 0 200; Elapse 60000] = Some s ∧
    now s = 63500 ∧
    is_Some (pending s !! 0%nat) ∧
    frameInFlightRef s = true ∧
    step s (AbortTimer 0) = None ∧
    streamError s = JStr "" ∧
    step s (JsonSettles 0 (inr (says "dog"))) = Some s' ∧
    answer <$> realTimeResults s' = [JStr "dog"] ∧
    streamError s' = JStr "".
Proof.
  eexists _, _. split; [vm_compute; reflexivity|].
  split; [vm_compute; reflexivity|].
  split; [reflexivity|].
  split; [vm_compute; by eexists|].
  split; [reflexivity|].
  split; [vm_compute; reflexivity|].
  split; [reflexivity|].
  split; [vm_compute; reflexivity|].
  split; reflexivity.
Qed.

(** C6, amended.  In every reachable state, an outstanding request [r] was
    sent in the past.  While [fetch] has not answered it: its abort timer
    cannot fire before 15 seconds have passed since it was sent; from then
    on the timer can fire, and when it does the request is retired, the
    displayed error is exactly ["Request timed out. Backend may be busy."],
    the flag is clear, and the next tick of a running timer that finds the
    source ready sends a new request and sets the flag again; a [fetch]
    rejected for another reason displays the error's own message or, when
    that is empty, the network-error message, which is a different text.
    Once [fetch] has answered, the timer is disarmed: however long the body
    takes, the request is not aborted. *)
Theorem request_times_out s id r :
  reachable s → pending s !! id = Some r →
  req_timestamp r <= now s ∧
  (req_await r = AwaitFetch → now s < req_timestamp r + 15000 →
     step s (AbortTimer id) = None) ∧
  (req_await r = AwaitFetch → req_timestamp r + 15000 <= now s →
     ∃ s', step s (AbortTimer id) = Some s' ∧
       pending s' !! id = None ∧
       streamError s' = JStr "Request timed out. Backend may be busy." ∧
       frameInFlightRef s' = false ∧
       ∀ iv env, streamingIntervalRef s = Some iv → iv_due iv <= now s →
         can_capture env = true →
         ∃ s'', step s' (FrameTick env) = Some s'' ∧
           frameInFlightRef s'' = true ∧
           pending s'' !! nextRequest s =
             Some {| req_url := iv_apiUrl iv ++ "/analyze/frame";
                     req_data := tick_jpeg env;
                     req_timestamp := now s;
                     req_question := "what is in the picture";
                     req_abort := Some (now s + 15000);
                     req_await := AwaitFetch |}) ∧
  (∀ err, req_await r = AwaitFetch → err_name err ≠ "AbortError" →
     ∃ s', step s (FetchRejects id err) = Some s' ∧
       streamError s' =
         JStr (if decide (err_message err = "")
               then "Network error — check your ngrok URL and CORS settings."
               else err_message err)) ∧
  "Request timed out. Backend may be busy." ≠
    "Network error — check your ngrok URL and CORS settings." ∧
  (req_await r ≠ AwaitFetch → step s (AbortTimer id) = None).
Proof.
  intros Hreach Hr.
  destruct (reachable_timed s Hreach id r Hr) as [Hpast Habort].
  split; [done|]. split; [|split; [|split; [|split]]].
  - intros Hawait Hearly. rewrite Hawait in Habort.
    by apply (abort_timer_early _ _ r (req_timestamp r + 15000)).
  - intros Hawait Hlate. rewrite Hawait in Habort.
    rewrite (abort_timer_fires _ _ r (req_timestamp r + 15000)) by done.
    eexists. split; [done|].
    split; [destruct s; cbn; apply lookup_delete_eq|].
    split; [by destruct s|]. split; [by destruct s|].
    intros iv env Hiv Hdue Hcap.
    destruct (andb_prop _ _ Hcap) as [Hready _].
    destruct (tick_video env) as [videoEl|] eqn:Hv; [|done].
    eexists. split.
    + eapply frame_tick_sends; [| | |done|done]; by destruct s.
    + split; [by destruct s|]. destruct s; cbn. apply lookup_insert_eq.
  - intros err Hawait Hname.
    rewrite (fetch_rejects _ _ r) by done.
    eexists. split; [done|].
    unfold surfaced. rewrite decide_False by done. by destruct s.
  - discriminate.
  - intros Hawait. destruct s, r. js_run. simplify_eq.
    rewrite Hr. js_run. by destruct req_await0.
Qed.

Lemma request_times_out_witness :
  reachable sent_state ∧
  pending sent_state !! 0%nat = Some first_request ∧
  step sent_state (AbortTimer 0) = None ∧
  reachable overdue_state ∧
  pending overdue_state !! 0%nat = Some first_request ∧
  ∃ s' s'',
    step overdue_state (AbortTimer 0) = Some s' ∧
    pending s' !! 0%nat = None ∧
    streamError s' = JStr "Request timed out. Backend may be busy." ∧
    frameInFlightRef s' = false ∧
    step s' (FrameTick frame_ready) = Some s'' ∧
    frameInFlightRef s'' = true ∧
    pending s'' !! 1%nat =
      Some {| req_url := "http://localhost:5000/analyze/frame";
              req_data := "data:image/jpeg;base64,/9j/4AAQ";
              req_timestamp := 17500;
              req_question := "what is in the picture";
              req_abort := Some 32500;
              req_await := AwaitFetch |}.
Proof.
  assert (H1 : reachable sent_state).
  { exists "http://localhost:5000", true, first_frame_sent. vm_compute; reflexivity. }
  assert (H2 : pending sent_state !! 0%nat = Some first_request)
    by (vm_compute; reflexivity).
  assert (H3 : reachable overdue_state).
  { exists "http://localhost:5000", true, (first_frame_sent ++ [Elapse 15000])%list.
    vm_compute; reflexivity. }
  assert (H4 : pending overdue_state !! 0%nat = Some first_request)
    by (vm_compute; reflexivity).
  split; [exact H1|]. split; [exact H2|].
  destruct (request_times_out sent_state 0 first_request H1 H2)
    as (_ & Hearly & _).
  split; [apply Hearly; [reflexivity | vm_compute; reflexivity]|].
  split; [exact H3|]. split; [exact H4|].
  destruct (request_times_out overdue_state 0 first_request H3 H4)
    as (_ & _ & Hlate & _).
  destruct Hlate as (s' & Hstep & Hgone & Herr & Hflag & Hnext);
    [reflexivity | vm_compute; discriminate|].
  destruct (Hnext (tick_again first_interval) frame_ready) as (s'' & Htick & Hflag' & Hsent);
    [vm_compute; reflexivity.. | vm_compute; discriminate | reflexivity |].
  exists s', s''. repeat (split; [assumption|]). exact Hsent.
Defined.

(** ** Responses *)

Lemma not_2xx status : (status < 200 ∨ 299 < status)%N → response_ok status = false.
Proof.
  intros H. unfold response_ok. apply andb_false_iff.
  destruct H; [left; by apply N.leb_gt | right; by apply N.leb_gt].
Qed.

Lemma length_slice_prefix_min n text :
  String.length (slice_prefix n text) = (n `min` String.length text)%nat.
Proof.
  unfold slice_prefix. revert text.
  induction n as [|n IH]; intros [|c text]; cbn; try done. by rewrite IH.
Qed.

(** The decimal numeral of a status reads back as that status. *)
Lemma decimal_parses status :
  N.of_uint <$> NilEmpty.uint_of_string (decimal status) = Some status.
Proof. unfold decimal. rewrite NilEmpty.usu. cbn. by rewrite DecimalN.Unsigned.of_to. Qed.

(** C8 fails when the body of the error response cannot be read: the
    response to request 0 has status 500 and [response.text()] rejects with
    a [TypeError]; the displayed error is that error's message, with neither
    the status nor any part of a body in it. *)
Lemma unreadable_body_hides_status :
  ∃ s',
    run sent_state
      [FetchFulfils 0 500;
       TextSettles 0 (inl {| err_name := "TypeError"; err_message := "Failed to fetch" |})]
      = Some s' ∧
    streamError s' = JStr "Failed to fetch" ∧
    pending s' !! 0%nat = None ∧
    frameInFlightRef s' = false.
Proof.
  eexists. split; [vm_compute; reflexivity|].
  split; [reflexivity|]. split; [vm_compute; reflexivity|reflexivity].
Qed.

(** C8, amended.  When [fetch] answers with a status outside 200-299, the
    callback waits for the body text, its abort timer off, and displays
    nothing until the read settles.  If the text [text] is read, the
    displayed error is exactly ["HTTP <status>: <cut>"], where [<status>] is
    the decimal numeral of the status and [<cut>] the first 120 characters
    of [text] (all of it when it is shorter).  If the read fails, the
    displayed error is the failure's message (the timeout message for an
    [AbortError], the network-error message for an empty one); the status is
    not shown.  Either way the result log and the narration are untouched
    and the cycle is over. *)
Theorem http_error_reported s id r status :
  pending s !! id = Some r → req_await r = AwaitFetch →
  (status < 200 ∨ 299 < status)%N →
  ∃ s1, step s (FetchFulfils id status) = Some s1 ∧
    streamError s1 = streamError s ∧
    realTimeResults s1 = realTimeResults s ∧
    utterances s1 = utterances s ∧
    frameInFlightRef s1 = frameInFlightRef s ∧
    pending s1 !! id =
      Some {| req_url := req_url r; req_data := req_data r;
              req_timestamp := req_timestamp r; req_question := req_question r;
              req_abort := None; req_await := AwaitText status |} ∧
    (∀ text, ∃ s2, step s1 (TextSettles id (inr text)) = Some s2 ∧
       streamError s2 =
         JStr ("HTTP " ++ NilEmpty.string_of_uint (N.to_uint status) ++ ": "
                 ++ substring 0 120 text) ∧
       N.of_uint <$> NilEmpty.uint_of_string
                       (NilEmpty.string_of_uint (N.to_uint status)) = Some status ∧
       String.length (substring 0 120 text) = (120 `min` String.length text)%nat ∧
       String.prefix (substring 0 120 text) text = true ∧
       ((String.length text <= 120)%nat → substring 0 120 text = text) ∧
       realTimeResults s2 = realTimeResults s ∧
       utterances s2 = utterances s ∧
       pending s2 !! id = None ∧
       frameInFlightRef s2 = false) ∧
    (∀ err, ∃ s2, step s1 (TextSettles id (inl err)) = Some s2 ∧
       streamError s2 =
         JStr (if decide (err_name err = "AbortError")
               then "Request timed out. Backend may be busy."
               else if decide (err_message err = "")
               then "Network error — check your ngrok URL and CORS settings."
               else err_message err) ∧
       realTimeResults s2 = realTimeResults s ∧
       utterances s2 = utterances s ∧
       pending s2 !! id = None ∧
       frameInFlightRef s2 = false).
Proof.
  intros Hr Hawait Hbad. apply not_2xx in Hbad.
  rewrite (fetch_fulfils _ _ _ status Hr Hawait).
  unfold next_await. rewrite Hbad.
  eexists. split; [done|].
  match goal with |- context [step ?s' _] => set (s1 := s') end.
  assert (Hr1 : pending s1 !! id =
                  Some (r <| req_abort := None |> <| req_await := AwaitText status |>)).
  { subst s1. destruct s. cbn. apply lookup_insert_eq. }
  split; [by destruct s|]. split; [by destruct s|].
  split; [by destruct s|]. split; [by destruct s|].
  split; [by rewrite Hr1; destruct r|].
  split.
  - intros text.
    rewrite (text_settles _ _ _ status (inr text) Hr1 eq_refl).
    eexists. split; [done|].
    split; [by destruct s|].
    split; [apply decimal_parses|].
    split; [apply (length_slice_prefix_min 120)|].
    split; [apply (slice_prefix_is_prefix 120)|].
    split; [apply (slice_prefix_short 120)|].
    destruct s; repeat split; try done. cbn. apply lookup_delete_eq.
  - intros err.
    rewrite (text_settles _ _ _ status (inl err) Hr1 eq_refl).
    eexists. split; [done|].
    split; [by destruct s|].
    destruct s; repeat split; try done. cbn. apply lookup_delete_eq.
Qed.

Lemma http_error_reported_witness :
  pending sent_state !! 0%nat = Some first_request ∧
  req_await first_request = AwaitFetch ∧
  (500 < 200 ∨ 299 < 500)%N ∧
  ∃ s1 s2 s2',
    step sent_state (FetchFulfils 0 500) = Some s1 ∧
    streamError s1 = JStr "" ∧
    step s1 (TextSettles 0 (inr "{'error':'model overloaded'}")) = Some s2 ∧
    streamError s2 = JStr "HTTP 500: {'error':'model overloaded'}" ∧
    realTimeResults s2 = [] ∧
    frameInFlightRef s2 = false ∧
    step s1 (TextSettles 0 (inl {| err_name := "TypeError"; err_message := "" |}))
      = Some s2' ∧
    streamError s2' =
      JStr "Network error — check your ngrok URL and CORS settings." ∧
    realTimeResults s2' = [] ∧
    frameInFlightRef s2' = false.
Proof.
  assert (H1 : pending sent_state !! 0%nat = Some first_request)
    by (vm_compute; reflexivity).
  assert (H2 : req_await first_request = AwaitFetch) by reflexivity.
  assert (H3 : (500 < 200 ∨ 299 < 500)%N) by (right; reflexivity).
  split; [exact H1|]. split; [exact H2|]. split; [exact H3|].
  destruct (http_error_reported sent_state 0 first_request 500 H1 H2 H3)
    as (s1 & Hstep & Herr & _ & _ & _ & _ & Hread & Hfails).
  destruct (Hread "{'error':'model overloaded'}")
    as (s2 & Hstep2 & Herr2 & _ & _ & _ & _ & Hlog2 & _ & _ & Hflag2).
  destruct (Hfails {| err_name := "TypeError"; err_message := "" |})
    as (s2' & Hstep2' & Herr2' & Hlog2' & _ & _ & Hflag2').
  exists s1, s2, s2'.
  split; [exact Hstep|]. split; [exact Herr|].
  split; [exact Hstep2|]. split; [exact Herr2|].
  split; [exact Hlog2|]. split; [exact Hflag2|].
  split; [exact Hstep2'|]. split; [exact Herr2'|].
  split; [exact Hlog2' | exact Hflag2'].
Defined.

Lemma normalize_sentinel answer :
  answer = JStr "unanswerable" ∨ answer = JStr "unsuitable" →
  normalize answer = JStr "object".
Proof. by intros [-> | ->]. Qed.

Lemma normalize_other answer :
  answer ≠ JStr "unanswerable" → answer ≠ JStr "unsuitable" →
  normalize answer = answer.
Proof.
  intros H1 H2. unfold normalize.
  by rewrite !bool_decide_eq_false_2.
Qed.

(** C5.  For a successful response (truthy [success], truthy [answer]) the
    result log gets one new last entry, stamped with the current time, whose
    answer is [stored], and whose question is the response's or, when that
    is falsy, ["what is in the picture"]; the same [stored] is handed to
    [speakPrediction].  [stored] is the string ["object"] when the answer is
    ["unanswerable"] or ["unsuitable"], and the answer itself otherwise.
    (Where the browser has no [speechSynthesis], nothing is spoken.) *)
Theorem answer_normalized s id r success answer question error :
  pending s !! id = Some r → req_await r = AwaitJson →
  truthy success = true → truthy answer = true →
  ∃ s' stored,
    step s (JsonSettles id (inr (BodyFields success answer question error))) = Some s' ∧
    realTimeResults s' =
      (drop (length (realTimeResults s) - 19) (realTimeResults s) ++
       [ {| timestamp := now s;
            answer := stored;
            question := if truthy question then question
                        else JStr "what is in the picture" |} ])%list ∧
    utterances s' =
      (if hasSpeechSynthesis s then utterances s ++ [stored] else utterances s)%list ∧
    speechQueue s' = (if hasSpeechSynthesis s then [stored] else speechQueue s) ∧
    streamError s' = streamError s ∧
    (answer = JStr "unanswerable" ∨ answer = JStr "unsuitable" →
       stored = JStr "object") ∧
    (answer ≠ JStr "unanswerable" → answer ≠ JStr "unsuitable" →
       stored = answer).
Proof.
  intros Hr Hawait Hs Ha. eexists _, (normalize answer).
  split; [by apply (json_settles_answer _ _ r)|].
  split; [by destruct s as [? []]|].
  split; [by destruct s as [? []]|].
  split; [by destruct s as [? []]|].
  split; [by destruct s as [? []]|].
  split; [apply normalize_sentinel | apply normalize_other].
Qed.

Lemma answer_normalized_witness :
  pending answering_state !! 0%nat = Some answering_request ∧
  req_await answering_request = AwaitJson ∧
  truthy (JBool true) = true ∧
  truthy (JStr "unsuitable") = true ∧
  truthy (JStr "dog") = true ∧
  (∃ s',
     step answering_state (JsonSettles 0 (inr (says "unsuitable"))) = Some s' ∧
     realTimeResults s' =
       [ {| timestamp := 3300; answer := JStr "object";
            question := JStr "what is in the picture" |} ] ∧
     utterances s' = [JStr "object"]) ∧
  (∃ s',
     step answering_state (JsonSettles 0 (inr (says "dog"))) = Some s' ∧
     realTimeResults s' =
       [ {| timestamp := 3300; answer := JStr "dog";
            question := JStr "what is in the picture" |} ] ∧
     utterances s' = [JStr "dog"]).
Proof.
  assert (H1 : pending answering_state !! 0%nat = Some answering_request)
    by (vm_compute; reflexivity).
  assert (H2 : req_await answering_request = AwaitJson) by reflexivity.
  assert (H3 : truthy (JBool true) = true) by reflexivity.
  assert (H4 : truthy (JStr "unsuitable") = true) by reflexivity.
  assert (H5 : truthy (JStr "dog") = true) by reflexivity.
  split; [exact H1|]. split; [exact H2|]. split; [exact H3|].
  split; [exact H4|]. split; [exact H5|]. split.
  - destruct (answer_normalized answering_state 0 answering_request (JBool true)
                (JStr "unsuitable") JUndefined JUndefined H1 H2 H3 H4)
      as (s' & stored & Hstep & Hlog & Hsaid & _ & _ & Hsentinel & _).
    rewrite (Hsentinel (or_intror eq_refl)) in Hlog, Hsaid.
    exists s'. split; [exact Hstep|].
    split; [rewrite Hlog; reflexivity | rewrite Hsaid; reflexivity].
  - destruct (answer_normalized answering_state 0 answering_request (JBool true)
                (JStr "dog") JUndefined JUndefined H1 H2 H3 H5)
      as (s' & stored & Hstep & Hlog & Hsaid & _ & _ & _ & Hother).
    rewrite Hother in Hlog, Hsaid by discriminate.
    exists s'. split; [exact Hstep|].
    split; [rewrite Hlog; reflexivity | rewrite Hsaid; reflexivity].
Defined.

(** C10 fails for the one JSON body that has no properties to read: for
    [null], reading [result.success] throws, and the [catch] clause displays
    the [TypeError]'s message although no [error] field was sent.  (Nothing
    is logged.) *)
Lemma null_body_surfaces_error :
  ∃ s s',
    run sent_state [Elapse 800; FetchFulfils 0 200] = Some s ∧
    streamError s = JStr "" ∧
    step s (JsonSettles 0 (inr BodyNull)) = Some s' ∧
    realTimeResults s' = realTimeResults s ∧
    streamError s' = JStr "Cannot read properties of null (reading 'success')".
Proof.
  eexists _, _. split; [vm_compute; reflexivity|].
  split; [reflexivity|]. split; [vm_compute; reflexivity|].
  split; reflexivity.
Qed.

(** C10, amended.  For a response whose parsed body is not [null], if
    [success] is not truthy or [answer] is absent or the empty string, then
    nothing is appended to the result log and nothing is spoken; if moreover
    [error] is absent or empty (or anything else that is not truthy), the
    displayed error is left as it was, and otherwise [error] is displayed. *)
Theorem unanswered_response_dropped s id r success answer question error :
  pending s !! id = Some r → req_await r = AwaitJson →
  truthy success = false ∨ answer = JUndefined ∨ answer = JStr "" →
  ∃ s',
    step s (JsonSettles id (inr (BodyFields success answer question error))) = Some s' ∧
    realTimeResults s' = realTimeResults s ∧
    utterances s' = utterances s ∧
    speechQueue s' = speechQueue s ∧
    (error = JUndefined ∨ error = JStr "" → streamError s' = streamError s) ∧
    (truthy error = false → streamError s' = streamError s) ∧
    (truthy error = true → streamError s' = error).
Proof.
  intros Hr Hawait Hno. eexists. split.
  - apply (json_settles_no_answer _ _ r); [done..|].
    destruct Hno as [-> | [-> | ->]]; [done | apply andb_false_r..].
  - split; [by destruct (truthy error), s|].
    split; [by destruct (truthy error), s|].
    split; [by destruct (truthy error), s|].
    split; [by intros [-> | ->]; destruct s|].
    split; intros ->; by destruct s.
Qed.

Lemma unanswered_response_dropped_witness :
  pending answering_state !! 0%nat = Some answering_request ∧
  req_await answering_request = AwaitJson ∧
  (truthy (JBool true) = false ∨ JStr "" = JUndefined ∨ JStr "" = JStr "") ∧
  ∃ s',
    step answering_state
      (JsonSettles 0 (inr (BodyFields (JBool true) (JStr "") JUndefined JUndefined)))
    = Some s' ∧
    realTimeResults s' = realTimeResults answering_state ∧
    utterances s' = utterances answering_state ∧
    streamError s' = streamError answering_state.
Proof.
  assert (H1 : pending answering_state !! 0%nat = Some answering_request)
    by (vm_compute; reflexivity).
  assert (H2 : req_await answering_request = AwaitJson) by reflexivity.
  assert (H3 : truthy (JBool true) = false ∨ JStr "" = JUndefined ∨ JStr "" = JStr "")
    by (right; right; reflexivity).
  split; [exact H1|]. split; [exact H2|]. split; [exact H3|].
  destruct (unanswered_response_dropped answering_state 0 answering_request
              (JBool true) (JStr "") JUndefined JUndefined H1 H2 H3)
    as (s' & Hstep & Hlog & Hsaid & _ & Hsilent & _).
  exists s'. split; [exact Hstep|]. split; [exact Hlog|].
  split; [exact Hsaid | exact (Hsilent (or_introl eq_refl))].
Defined.

(** ** Stopping *)

Lemma stopRecording_returns requestData s :
  fst (stopRecording requestData s) = inr tt.
Proof.
  destruct s. js_run.
  by destruct mediaRecorderRef0, isRecording0, requestData.
Qed.

Lemma stopRecording_stops s requestData :
  mediaRecorderRef s = true → isRecording s = true →
  exec (stopRecording requestData) s =
    s <| isRecording := false |> <| isStreaming := false |>
      <| recordingIntervalRef := None |> <| streamingIntervalRef := None |>
      <| frameInFlightRef := false |>.
Proof.
  intros Hmr Hrec. destruct s. js_run. simplify_eq.
  by destruct requestData, recordingIntervalRef0, streamingIntervalRef0.
Qed.

(** C3 fails: the response to a request that was out when recording was
    stopped is still put in the log, and spoken. *)
Lemma entry_appended_after_stop :
  ∃ s1 s2,
    run sent_state [Elapse 400; StopRecording None] = Some s1 ∧
    pending s1 !! 0%nat = Some first_request ∧
    realTimeResults s1 = [] ∧
    run s1 [Elapse 600; FetchFulfils 0 200; JsonSettles 0 (inr (says "dog"))] = Some s2 ∧
    realTimeResults s2 =
      [{| timestamp := 3500; answer := JStr "dog"; question := JStr DEFAULT_QUESTION |}] ∧
    utterances s2 = [JStr "dog"].
Proof.
  eexists _, _. split; [vm_compute; reflexivity|].
  split; [vm_compute; reflexivity|].
  split; [reflexivity|]. split; [vm_compute; reflexivity|].
  split; reflexivity.
Qed.

(** C3, amended.  [stopRecording] never throws, whatever [mr.requestData()]
    does.  Called while recording with a request outstanding, it cancels the
    streaming timer, so that no tick can fire, and clears the flag; the
    request stays outstanding and the log is as it was.  When the response
    then arrives, after any delay, with a 2xx status and a body that has a
    truthy [success] and [answer], its entry is appended to the log and its
    answer handed to [speakPrediction], as they would have been without the
    stop. *)
Theorem stop_recording_abandons_request
    s requestData id r wait status success answer question error :
  mediaRecorderRef s = true → isRecording s = true →
  pending s !! id = Some r → req_await r = AwaitFetch →
  0 <= wait → response_ok status = true →
  truthy success = true → truthy answer = true →
  ∃ s1 s2,
    fst (stopRecording requestData s) = inr tt ∧
    step s (StopRecording requestData) = Some s1 ∧
    streamingIntervalRef s1 = None ∧
    (∀ env, step s1 (FrameTick env) = None) ∧
    frameInFlightRef s1 = false ∧
    pending s1 = pending s ∧
    realTimeResults s1 = realTimeResults s ∧
    run s1 [Elapse wait; FetchFulfils id status;
            JsonSettles id (inr (BodyFields success answer question error))] = Some s2 ∧
    realTimeResults s2 =
      appendResult
        {| timestamp := now s + wait;
           answer := normalize answer;
           question := js_or question (JStr DEFAULT_QUESTION) |}
        (realTimeResults s) ∧
    utterances s2 =
      (if hasSpeechSynthesis s then utterances s ++ [normalize answer]
       else utterances s)%list.
Proof.
  intros Hmr Hrec Hr Hawait Hwait Hok Hs Ha.
  eexists _, _. split; [apply stopRecording_returns|].
  split; [done|]. cbn [step]. rewrite stopRecording_stops by done.
  split; [by destruct s|].
  split; [intros env; apply frame_tick_disabled; by destruct s|].
  split; [by destruct s|]. split; [by destruct s|]. split; [by destruct s|].
  cbn [run]. rewrite elapse by done. cbn [mbind option_bind].
  erewrite (fetch_fulfils _ id r status); [|by destruct s|done].
  cbn [mbind option_bind]. unfold next_await. rewrite Hok.
  erewrite json_settles_answer; [|destruct s; cbn; apply lookup_insert_eq|done..].
  split; [done|].
  split; [rewrite (Z.add_comm (now s) wait)|]; by destruct s as [? []].
Qed.

Lemma stop_recording_abandons_request_witness :
  mediaRecorderRef sent_state = true ∧
  isRecording sent_state = true ∧
  pending sent_state !! 0%nat = Some first_request ∧
  req_await first_request = AwaitFetch ∧
  0 <= 1000 ∧
  response_ok 200 = true ∧
  truthy (JBool true) = true ∧
  truthy (JStr "dog") = true ∧
  ∃ s1 s2,
    fst (stopRecording None sent_state) = inr tt ∧
    step sent_state (StopRecording None) = Some s1 ∧
    streamingIntervalRef s1 = None ∧
    step s1 (FrameTick frame_ready) = None ∧
    frameInFlightRef s1 = false ∧
    pending s1 = pending sent_state ∧
    realTimeResults s1 = realTimeResults sent_state ∧
    run s1 [Elapse 1000; FetchFulfils 0 200; JsonSettles 0 (inr (says "dog"))] = Some s2 ∧
    realTimeResults s2 =
      [{| timestamp := 3500; answer := JStr "dog"; question := JStr DEFAULT_QUESTION |}] ∧
    utterances s2 = [JStr "dog"].
Proof.
  assert (H1 : mediaRecorderRef sent_state = true) by reflexivity.
  assert (H2 : isRecording sent_state = true) by reflexivity.
  assert (H3 : pending sent_state !! 0%nat = Some first_request)
    by (vm_compute; reflexivity).
  assert (H4 : req_await first_request = AwaitFetch) by reflexivity.
  assert (H5 : 0 <= 1000) by lia.
  assert (H6 : response_ok 200 = true) by reflexivity.
  assert (H7 : truthy (JBool true) = true) by reflexivity.
  assert (H8 : truthy (JStr "dog") = true) by reflexivity.
  split; [exact H1|]. split; [exact H2|]. split; [exact H3|]. split; [exact H4|].
  split; [exact H5|]. split; [exact H6|]. split; [exact H7|]. split; [exact H8|].
  destruct (stop_recording_abandons_request sent_state None 0 first_request 1000 200
              (JBool true) (JStr "dog") JUndefined JUndefined H1 H2 H3 H4 H5 H6 H7 H8)
    as (s1 & s2 & Hret & Hstop & Htimer & Htick & Hflag & Hpending & Hlog & Hrun & Hlog2
          & Hsaid).
  exists s1, s2. split; [exact Hret|]. split; [exact Hstop|]. split; [exact Htimer|].
  split; [exact (Htick frame_ready)|]. split; [exact Hflag|].
  split; [exact Hpending|]. split; [exact Hlog|]. split; [exact Hrun|].
  split; [rewrite Hlog2; reflexivity | rewrite Hsaid; reflexivity].
Defined.

(** ** Starting *)

(** C7 fails.  [startFrameStreaming] begins the timer for a video element
    that has zero dimensions and no buffered data; and [startRecording],
    which refuses such a source before it reaches [startFrameStreaming],
    does so with an alert. *)
Lemma timer_started_on_cold_source :
  video_ready (Some camera_cold) = false ∧
  streamingIntervalRef camera_state = None ∧
  startFrameStreaming (Some camera_cold) camera_state =
    (inr tt, camera_state <| streamingIntervalRef := Some first_interval |>) ∧
  alerts camera_state = [] ∧
  alerts (exec (startRecording recorder_cold) camera_state) = [AlertCameraStillStarting].
Proof. repeat split. Qed.

(** C7, amended.  [startFrameStreaming] returns without any effect exactly
    when the video element is absent or the API URL is empty.  Otherwise it
    sets the timer, due one interval from now, and clears the flag, whatever
    the readiness of the element; a source that is not ready is skipped by
    each tick instead (C9).  [startRecording], its only caller, refuses a
    source that is not ready: the state is unchanged but for the alert it
    shows, so no timer is begun. *)
Theorem start_streaming_guards s video env :
  (video = None ∨ apiUrl s = "" →
     startFrameStreaming video s = (inr tt, s)) ∧
  (video ≠ None → apiUrl s ≠ "" →
     startFrameStreaming video s =
       (inr tt, s <| streamingIntervalRef :=
                       Some {| iv_due := now s + FRAME_INTERVAL_MS;
                               iv_apiUrl := apiUrl s |} |>
                  <| frameInFlightRef := false |>)) ∧
  (mediaStream s = true → video_ready (rec_video env) = false →
     startRecording env s = (inr tt, s <| alerts ::= cons AlertCameraStillStarting |>)).
Proof.
  split; [|split].
  - intros Hno. destruct s. js_run. destruct video as [v|].
    + destruct Hno as [?| ->]; [done|]. by rewrite bool_decide_eq_true_2.
    + rewrite (bool_decide_eq_false_2 (is_Some None)); [done|]. by intros [? ?].
  - intros Hv Hurl. destruct s. js_run. destruct video as [v|]; [|done].
    rewrite (bool_decide_eq_true_2 (is_Some (Some v))) by by eexists.
    rewrite bool_decide_eq_false_2 by done. cbn.
    by destruct streamingIntervalRef0.
  - intros Hms Hcold. destruct s, env. js_run. simplify_eq. by rewrite Hcold.
Qed.

Lemma start_streaming_guards_witness :
  startFrameStreaming None camera_state = (inr tt, camera_state) ∧
  startFrameStreaming (Some camera_cold) camera_state =
    (inr tt, camera_state
               <| streamingIntervalRef :=
                    Some {| iv_due := now camera_state + FRAME_INTERVAL_MS;
                            iv_apiUrl := apiUrl camera_state |} |>
               <| frameInFlightRef := false |>) ∧
  startRecording recorder_cold camera_state =
    (inr tt, camera_state <| alerts ::= cons AlertCameraStillStarting |>).
Proof.
  destruct (start_streaming_guards camera_state None recorder_cold) as (Hnone & _ & Hrec).
  destruct (start_streaming_guards camera_state (Some camera_cold) recorder_cold)
    as (_ & Hsome & _).
  split; [exact (Hnone (or_introl eq_refl))|].
  split; [apply Hsome; discriminate|].
  exact (Hrec eq_refl eq_refl).
Defined.

(** ** The result log *)

(** Outside the handlers that empty it, the log changes only by
    [appendResult], at the events [logged] singles out. *)
Lemma step_log s e s' :
  step s e = Some s' → resets_log e = false →
  realTimeResults s' =
    match logged s e with
    | Some entry => appendResult entry (realTimeResults s)
    | None => realTimeResults s
    end.
Proof.
  intros Hstep Hkeep. destruct e; try discriminate Hkeep; destruct s; unfold logged.
  all: js_invert Hstep; try done.
  all: repeat js_case; simplify_eq; try done.
Qed.

Lemma step_log_bound s e s' :
  step s e = Some s' →
  (length (realTimeResults s) <= 20)%nat → (length (realTimeResults s') <= 20)%nat.
Proof.
  intros Hstep Hlen. destruct (resets_log e) eqn:Hreset.
  - destruct e; try discriminate Hreset; destruct s; js_invert Hstep; cbn; try done; lia.
  - rewrite (step_log _ _ _ Hstep Hreset). destruct (logged s e); [|done].
    apply length_appendResult.
Qed.

Lemma run_log_bound s trace s' :
  run s trace = Some s' →
  (length (realTimeResults s) <= 20)%nat → (length (realTimeResults s') <= 20)%nat.
Proof.
  revert s. induction trace as [|e trace IH]; intros s Hrun Hlen; simplify_eq/=; [done|].
  destruct (step s e) as [s1|] eqn:Hstep; simplify_eq/=.
  eapply IH; [done|]. by eapply step_log_bound.
Qed.

Lemma reachable_log_bound s :
  reachable s → (length (realTimeResults s) <= 20)%nat.
Proof.
  intros (url & speech & trace & Hrun).
  eapply run_log_bound; [done|]. cbn. lia.
Qed.

(** Along a trace that does not empty the log, the log is the last 20 of
    everything that has arrived. *)
Lemma run_log s trace s' history :
  run s trace = Some s' →
  forallb (λ e, negb (resets_log e)) trace = true →
  realTimeResults s = slice_last 20 history →
  realTimeResults s' = slice_last 20 (history ++ arrivals s trace).
Proof.
  revert s history.
  induction trace as [|e trace IH]; intros s history Hrun Hkeep Hlog; simplify_eq/=.
  { by rewrite app_nil_r. }
  destruct (step s e) as [s1|] eqn:Hstep; simplify_eq/=.
  apply andb_true_iff in Hkeep as [Hkeep1 Hkeep].
  apply negb_true_iff in Hkeep1.
  pose proof (step_log _ _ _ Hstep Hkeep1) as Hlog1.
  destruct (logged s e) as [entry|]; cbn [option_list].
  - rewrite (IH s1 (history ++ [entry])%list Hrun Hkeep).
    + by rewrite <- app_assoc.
    + by rewrite Hlog1, Hlog, appendResult_slice_last.
  - by rewrite (IH s1 history Hrun Hkeep) by congruence.
Qed.

(** C4.  In every reachable state the result log has at most 20 entries.
    Over any further run that does not restart the camera or the recording,
    the log ends as the last 20 of its old entries followed by the entries
    of the successful ticks in arrival order; in particular, starting from
    an empty log, after 21 successful ticks it holds exactly the 20 that
    came after the first. *)
Theorem result_log_keeps_last_20 s trace s' :
  reachable s → run s trace = Some s' →
  forallb (λ e, negb (resets_log e)) trace = true →
  (length (realTimeResults s) <= 20)%nat ∧
  (length (realTimeResults s') <= 20)%nat ∧
  realTimeResults s' = slice_last 20 (realTimeResults s ++ arrivals s trace) ∧
  (∀ oldest rest,
     realTimeResults s = [] → arrivals s trace = oldest :: rest →
     length rest = 20%nat → realTimeResults s' = rest).
Proof.
  intros Hreach Hrun Hkeep.
  pose proof (reachable_log_bound s Hreach) as Hlen.
  assert (Hlog : realTimeResults s' =
                   slice_last 20 (realTimeResults s ++ arrivals s trace)).
  { apply run_log; [done..|]. by rewrite slice_last_all. }
  split; [done|]. split; [by eapply run_log_bound|]. split; [done|].
  intros oldest rest Hempty Harr Hrest.
  rewrite Hlog, Hempty, Harr. cbn [app].
  unfold slice_last. cbn [length]. rewrite Hrest. done.
Qed.

Lemma result_log_keeps_last_20_witness :
  reachable recording_state ∧
  run recording_state full_session = Some full_state ∧
  forallb (λ e, negb (resets_log e)) full_session = true ∧
  length (arrivals recording_state full_session) = 21%nat ∧
  (length (realTimeResults full_state) <= 20)%nat ∧
  realTimeResults full_state = drop 1 (arrivals recording_state full_session) ∧
  answer <$> realTimeResults full_state =
    (λ k, JStr (decimal (N.of_nat k))) <$> seq 1 20.
Proof.
  assert (H1 : reachable recording_state).
  { exists "http://localhost:5000", true, recording. reflexivity. }
  assert (H2 : run recording_state full_session = Some full_state)
    by (vm_compute; reflexivity).
  assert (H3 : forallb (λ e, negb (resets_log e)) full_session = true)
    by reflexivity.
  assert (H4 : length (arrivals recording_state full_session) = 21%nat)
    by (vm_compute; reflexivity).
  destruct (result_log_keeps_last_20 recording_state full_session full_state H1 H2 H3)
    as (_ & Hlen & _ & Hlast).
  split; [exact H1|]. split; [exact H2|]. split; [exact H3|].
  split; [exact H4|]. split; [exact Hlen|].
  split; [|vm_compute; reflexivity].
  destruct (arrivals recording_state full_session) as [|oldest rest];
    [discriminate H4|].
  injection H4 as H4. exact (Hlast oldest rest eq_refl eq_refl H4).
Defined.

End VideoAnalyzer.
